(** * Open-AutoGLM: the comment translator [translate_comments.py]

    A shallow embedding of [CommentTranslator] (the line scanner, the
    code/comment splitter, the translation gate and the per-file pass) and
    the properties of it that the specification states.

    Python strings are sequences of Unicode code points: a character is a
    code point in [N], a [str] is a list of them.  The translation backend
    and the file system are the two effects of the program; they live in an
    explicit [World] threaded through a state-and-exception monad. *)

From Stdlib Require Import String Ascii List NArith Bool Arith Lia.
Import ListNotations.

(** ** Python strings *)

Definition char := N.
Definition str := list char.

(** ASCII literals, for the constants of the source and for examples. *)
Definition py (s : string) : str := map N_of_ascii (list_ascii_of_string s).

Definition dquote : char := 34%N.      (* the double quote *)
Definition squote : char := 39%N.      (* ' *)
Definition hash : char := 35%N.        (* # *)
Definition backslash : char := 92%N.
Definition space : char := 32%N.
Definition newline : char := 10%N.

Definition triple_dquote : str := [dquote; dquote; dquote].
Definition triple_squote : str := [squote; squote; squote].

Module PyStr.

(** [str.isspace] on one character: the code points CPython's
    [_PyUnicode_IsWhitespace] accepts. *)
Definition isspace (c : char) : bool :=
  ((9 <=? c) && (c <=? 13) || (28 <=? c) && (c <=? 32)
   || (c =? 133) || (c =? 160) || (c =? 5760)
   || (8192 <=? c) && (c <=? 8202)
   || (c =? 8232) || (c =? 8233) || (c =? 8239) || (c =? 8287)
   || (c =? 12288))%N.

(** [c in chars] for a character. *)
Definition mem (c : char) (chars : str) : bool := existsb (N.eqb c) chars.

Fixpoint dropwhile (p : char -> bool) (s : str) : str :=
  match s with
  | [] => []
  | c :: s' => if p c then dropwhile p s' else s
  end.

Definition lstrip_by (p : char -> bool) (s : str) : str := dropwhile p s.
Definition rstrip_by (p : char -> bool) (s : str) : str :=
  rev (dropwhile p (rev s)).
Definition strip_by (p : char -> bool) (s : str) : str :=
  rstrip_by p (lstrip_by p s).

(** [s.lstrip()], [s.rstrip()], [s.strip()]. *)
Definition lstrip : str -> str := lstrip_by isspace.
Definition rstrip : str -> str := rstrip_by isspace.
Definition strip : str -> str := strip_by isspace.

(** [s.lstrip(chars)], [s.rstrip(chars)], [s.strip(chars)]: [chars] is a
    set of characters, not a prefix or suffix. *)
Definition lstrip_chars (chars s : str) : str := lstrip_by (fun c => mem c chars) s.
Definition rstrip_chars (chars s : str) : str := rstrip_by (fun c => mem c chars) s.
Definition strip_chars (chars s : str) : str := strip_by (fun c => mem c chars) s.

Definition eqb (a b : str) : bool :=
  if list_eq_dec N.eq_dec a b then true else false.

(** [s.startswith(prefix)]. *)
Fixpoint startswith (s prefix : str) : bool :=
  match prefix, s with
  | [], _ => true
  | _ :: _, [] => false
  | p :: prefix', c :: s' => (c =? p)%N && startswith s' prefix'
  end.

(** [sub in s]. *)
Fixpoint contains (sub s : str) : bool :=
  startswith s sub ||
  match s with
  | [] => false
  | _ :: s' => contains sub s'
  end.

(** [s.count(sub)]: occurrences that do not overlap, leftmost first.
    [skip] characters still belong to the occurrence just counted. *)
Fixpoint count_from (sub : str) (skip : nat) (s : str) : nat :=
  match s with
  | [] => 0
  | _ :: s' =>
      match skip with
      | S k => count_from sub k s'
      | O => if startswith s sub
             then S (count_from sub (length sub - 1) s')
             else count_from sub 0 s'
      end
  end.

Definition count (s sub : str) : nat :=
  match sub with
  | [] => S (length s)
  | _ :: _ => count_from sub 0 s
  end.

(** [s.split('\n')], written with the line being read as accumulator. *)
Fixpoint split_acc (sep : char) (cur : str) (s : str) : list str :=
  match s with
  | [] => [cur]
  | c :: s' => if (c =? sep)%N then cur :: split_acc sep [] s'
               else split_acc sep (cur ++ [c]) s'
  end.

Definition split (sep : char) (s : str) : list str := split_acc sep [] s.

(** [sep.join(parts)] for a one-character separator. *)
Fixpoint join (sep : char) (parts : list str) : str :=
  match parts with
  | [] => []
  | [p] => p
  | p :: ps => p ++ sep :: join sep ps
  end.

(** [' ' * n]. *)
Definition spaces (n : nat) : str := repeat space n.

End PyStr.

Import PyStr.

(** ** [_contains_chinese] and [_split_code_comment] *)

(** [re.search] for a code point in U+4E00..U+9FFF. *)
Definition _contains_chinese (text : str) : bool :=
  existsb (fun c => (19968 <=? c) && (c <=? 40959))%N text.

Definition is_quote (c : char) : bool := (c =? dquote)%N || (c =? squote)%N.

Definition opt_char_eqb (c : char) (o : option char) : bool :=
  match o with
  | Some d => (c =? d)%N
  | None => false
  end.

(** The [for i, char in enumerate(line)] loop of [_split_code_comment]:
    [rest] is what is left to visit, [i] the index of its head in [line]. *)
Fixpoint split_loop (line : str) (i : nat) (rest : str)
         (in_string : bool) (string_char : option char) : str * str :=
  match rest with
  | [] => (line, [])
  | c :: rest' =>
      if is_quote c && ((i =? 0) || negb (nth (i - 1) line 0%N =? backslash)%N)
      then
        if negb in_string then split_loop line (S i) rest' true (Some c)
        else if opt_char_eqb c string_char
             then split_loop line (S i) rest' false None
             else split_loop line (S i) rest' in_string string_char
      else if (c =? hash)%N && negb in_string
           then (rstrip (firstn i line), strip (skipn (S i) line))
           else split_loop line (S i) rest' in_string string_char
  end.

Definition _split_code_comment (line : str) : str * str :=
  if negb (mem hash line) then (line, [])
  else split_loop line 0 line false None.

(** *** The splitter as the specification words it

    A left-to-right scan with the active quote character as its only state
    ([None] outside a literal) and the previous character for the escape
    test.  [find_boundary] returns the text before and after the first [#]
    met outside a quoted literal. *)
Fixpoint find_boundary (before : str) (prev : option char)
         (quote : option char) (rest : str) : option (str * str) :=
  match rest with
  | [] => None
  | c :: rest' =>
      let escaped := opt_char_eqb backslash prev in
      match quote with
      | None =>
          if (c =? hash)%N then Some (before, rest')
          else if is_quote c && negb escaped
               then find_boundary (before ++ [c]) (Some c) (Some c) rest'
               else find_boundary (before ++ [c]) (Some c) None rest'
      | Some q =>
          if (c =? q)%N && negb escaped
          then find_boundary (before ++ [c]) (Some c) None rest'
          else find_boundary (before ++ [c]) (Some c) (Some q) rest'
      end
  end.

(** The reference splitter of the specification: code part right-trimmed,
    comment part left-trimmed. *)
Definition split_reference (line : str) : str * str :=
  match find_boundary [] None None line with
  | Some (before, after) => (rstrip before, lstrip after)
  | None => (line, [])
  end.

(** What the code computes over the same boundary: the comment part is
    trimmed at both ends. *)
Definition split_both_trimmed (line : str) : str * str :=
  match find_boundary [] None None line with
  | Some (before, after) => (rstrip before, strip after)
  | None => (line, [])
  end.

(** ** The world: file system, standard output and translation backend *)

Inductive exn :=
| FileNotFoundError (path : str)
| PermissionError (path : str)
| AttributeError
| TypeError
| APIError (msg : str)
| UnicodeEncodeError
| OpenAIError (msg : str).

Inductive result (A : Type) :=
| Ok (a : A)
| Raise (e : exn).
Arguments Ok {A} a.
Arguments Raise {A} e.

(** A file as text mode sees it: what [read()] returns, and whether
    opening it for writing succeeds. *)
Record File := { content : str; writable : bool }.

(** The lines the program prints, by the statement that prints them. *)
Inductive message :=
| MsgTranslateError (e : exn)
| MsgRule (blank_line_first : bool)
| MsgFile (file_path : str)
| MsgWillTranslate
| MsgDryRunSkip (file_path : str)
| MsgTranslated (file_path : str)
| MsgSkip (file_path : str)
| MsgFailed (file_path : str) (e : exn).

(** [OpenAI(base_url=..., api_key=...)] *)
Record Client := { base_url : str; api_key : str }.

(** The arguments of [chat.completions.create]: one user message. *)
Record Request := {
  req_model : str;
  req_content : str;
  req_max_tokens : N;
  req_temperature_tenths : N
}.

(** What the call gives back: an exception, or a response whose [choices]
    each carry [message.content], which may be [None]. *)
Inductive Completion :=
| APIFailure (msg : str)
| ChatCompletion (choices : list (option str)).

Record CommentTranslator := { client : Client; model : str }.

(** The two prompt templates, as code points, around the text. *)
Definition prompt_docstring_head : str :=
  [35831; 23558; 20197; 19979; 80; 121; 116; 104; 111; 110; 25991; 26723;
   23383; 31526; 20018; 20174; 33521; 25991; 32763; 35793; 20026; 20013;
   25991; 65292; 20445; 25345; 26684; 24335; 21644; 32467; 26500; 65306;
   10; 10]%N.
Definition prompt_docstring_tail : str :=
  [10; 10; 21482; 36820; 22238; 32763; 35793; 21518; 30340; 20013; 25991;
   25991; 26412; 65292; 19981; 35201; 28155; 21152; 20219; 20309; 35299;
   37322; 12290]%N.
Definition prompt_comment_head : str :=
  [35831; 23558; 20197; 19979; 80; 121; 116; 104; 111; 110; 27880; 37322;
   20174; 33521; 25991; 32763; 35793; 20026; 20013; 25991; 65306; 10; 10]%N.
Definition prompt_comment_tail : str :=
  [10; 10; 21482; 36820; 22238; 32763; 35793; 21518; 30340; 20013; 25991;
   25991; 26412; 65292; 19981; 35201; 28155; 21152; 35; 31526; 21495; 25110;
   20854; 20182; 21069; 32512; 12290]%N.

(** A code point that UTF-8 does not encode: a surrogate, U+D800 to
    U+DFFF. *)
Definition is_surrogate (c : char) : bool :=
  ((55296 <=? c) && (c <=? 57343))%N.

Definition carriage_return : char := 13%N.

(** What text mode reads back from a text it wrote, where the line
    separator of the system is the line feed: a carriage return, alone or
    before a line feed, comes back as one line feed. *)
Fixpoint universal_newlines (s : str) : str :=
  match s with
  | [] => []
  | c :: s' =>
      if (c =? carriage_return)%N then
        newline :: match s' with
                   | d :: s'' => if (d =? newline)%N
                                 then universal_newlines s''
                                 else universal_newlines s'
                   | [] => []
                   end
      else c :: universal_newlines s'
  end.

(** Python truthiness of a string. *)
Definition truthy (s : str) : bool :=
  match s with
  | [] => false
  | _ :: _ => true
  end.

(** The state of the [for] loop of [translate_file], under the names of
    its local variables. *)
Record ScanState := {
  in_docstring : bool;
  docstring_delimiter : option str;
  docstring_lines : list str;
  docstring_start_idx : nat;
  translated_lines : list str
}.

Definition initial_state : ScanState :=
  {| in_docstring := false; docstring_delimiter := None;
     docstring_lines := []; docstring_start_idx := 0;
     translated_lines := [] |}.

(** [translated_lines.append(l)] *)
Definition append_line (st : ScanState) (l : str) : ScanState :=
  {| in_docstring := in_docstring st;
     docstring_delimiter := docstring_delimiter st;
     docstring_lines := docstring_lines st;
     docstring_start_idx := docstring_start_idx st;
     translated_lines := translated_lines st ++ [l] |}.

(** [len(line) - len(line.lstrip())] *)
Definition indent_of (line : str) : nat :=
  List.length line - List.length (lstrip line).

(** The delimiter of a line that opens a docstring: three double quotes
    if they occur in the line, three single quotes otherwise. *)
Definition choose_delimiter (line : str) : str :=
  if contains triple_dquote line then triple_dquote else triple_squote.

(** The [for j, dline in enumerate(docstring_lines)] loop that collects
    [doc_content_lines]; [n] is [len(docstring_lines)]. *)
Fixpoint doc_content_loop (delimiter : str) (n j : nat) (dlines : list str)
         (doc_content_lines : list str) : list str :=
  match dlines with
  | [] => doc_content_lines
  | dline :: rest =>
      let acc :=
        if j =? 0 then
          let content := lstrip_chars delimiter (strip dline) in
          if truthy content then doc_content_lines ++ [content]
          else doc_content_lines
        else if j =? n - 1 then
          let content := rstrip_chars delimiter (strip dline) in
          if truthy content then doc_content_lines ++ [content]
          else doc_content_lines
        else doc_content_lines ++ [strip dline] in
      doc_content_loop delimiter n (S j) rest acc
  end.

Definition block_doc_content (delimiter : str) (dlines : list str) : str :=
  join newline (doc_content_loop delimiter (List.length dlines) 0 dlines []).

(** The lines a translated block is rebuilt from: the delimiter, every
    line of the translation that is not blank, the delimiter. *)
Definition rebuilt_block (indent : nat) (delimiter translated_doc : str)
  : list str :=
  [spaces indent ++ delimiter]
  ++ map (fun trans_line => spaces indent ++ trans_line)
         (filter (fun trans_line => truthy (strip trans_line))
                 (split newline translated_doc))
  ++ [spaces indent ++ delimiter].

Section Translator.

Set Implicit Arguments.

(** [str.isalpha] on one character (the Unicode letter categories). *)
Variable isalpha : char -> bool.

(** The backend: an opaque service with a state of its own. *)
Variable B : Type.
Variable chat_completions_create : Client -> Request -> B -> Completion * B.

(** [requests] records every call made to the backend, in order. *)
Record World := {
  fs : str -> option File;
  stdout : list message;
  backend : B;
  requests : list Request
}.

Definition M (A : Type) : Type := World -> result A * World.

Definition ret {A} (a : A) : M A := fun w => (Ok a, w).
Definition raise {A} (e : exn) : M A := fun w => (Raise e, w).
Definition bind {A C} (m : M A) (k : A -> M C) : M C :=
  fun w => match m w with
           | (Ok a, w') => k a w'
           | (Raise e, w') => (Raise e, w')
           end.
(** [try: m] followed by [except Exception as e: handler e] *)
Definition try_except {A} (m : M A) (handler : exn -> M A) : M A :=
  fun w => match m w with
           | (Ok a, w') => (Ok a, w')
           | (Raise e, w') => handler e w'
           end.

Notation "x <- m ;; k" := (bind m (fun x => k))
  (at level 61, m at next level, right associativity).
Notation "m ;; k" := (bind m (fun _ => k))
  (at level 61, right associativity).

Definition print (m : message) : M unit :=
  fun w => (Ok tt, {| fs := fs w; stdout := stdout w ++ [m];
                      backend := backend w; requests := requests w |}).

(** [with open(file_path, 'r', encoding='utf-8') as f: f.read()] *)
Definition read_file (file_path : str) : M str :=
  fun w => match fs w file_path with
           | Some f => (Ok (content f), w)
           | None => (Raise (FileNotFoundError file_path), w)
           end.

(** The file at [file_path] after [data] has been written to it: what
    [read()] will return is the text as text mode reads it back. *)
Definition fs_write (files : str -> option File) (file_path data : str)
  : str -> option File :=
  fun p => if eqb p file_path
           then Some {| content := universal_newlines data;
                        writable := true |}
           else files p.

(** [with open(file_path, 'w', encoding='utf-8') as f: f.write(data)].
    Opening either fails and leaves the file alone, or empties the file;
    [f.write] then encodes the whole text before it stores any of it, and
    a text that UTF-8 cannot encode leaves the file empty. *)
Definition write_file (file_path data : str) : M unit :=
  fun w => match fs w file_path with
           | Some {| writable := false |} =>
               (Raise (PermissionError file_path), w)
           | _ =>
               if existsb is_surrogate data
               then (Raise UnicodeEncodeError,
                     {| fs := fs_write (fs w) file_path [];
                        stdout := stdout w; backend := backend w;
                        requests := requests w |})
               else (Ok tt, {| fs := fs_write (fs w) file_path data;
                               stdout := stdout w; backend := backend w;
                               requests := requests w |})
           end.

(** [self.client.chat.completions.create(...)] *)
Definition create (c : Client) (rq : Request) : M (list (option str)) :=
  fun w =>
    let (r, b) := chat_completions_create c rq (backend w) in
    let w' := {| fs := fs w; stdout := stdout w; backend := b;
                 requests := requests w ++ [rq] |} in
    match r with
    | APIFailure msg => (Raise (APIError msg), w')
    | ChatCompletion choices => (Ok choices, w')
    end.

Definition build_prompt (text context : str) : str :=
  if eqb context (py "docstring")
  then prompt_docstring_head ++ text ++ prompt_docstring_tail
  else prompt_comment_head ++ text ++ prompt_comment_tail.

Definition build_request (self : CommentTranslator) (prompt : str) : Request :=
  {| req_model := model self; req_content := prompt;
     req_max_tokens := 500; req_temperature_tenths := 3 |}.

Definition translate_text (self : CommentTranslator) (text context : str)
  : M str :=
  if _contains_chinese text then ret text
  else if (List.length (strip text) <? 3) || negb (existsb isalpha text)
  then ret text
  else
    let prompt := build_prompt text context in
    try_except
      (choices <- create (client self) (build_request self prompt) ;;
       match choices with
       | Some reply :: _ =>
           let translated := strip reply in
           let translated := strip_chars [dquote; squote] translated in
           ret translated
       | None :: _ => raise AttributeError
       | [] => ret text
       end)
      (fun e => print (MsgTranslateError e) ;; ret text).

(** One iteration of [for i, line in enumerate(lines)]. *)
Definition scan_line (self : CommentTranslator) (i : nat) (line : str)
           (st : ScanState) : M ScanState :=
  let stripped := strip line in
  if negb (in_docstring st) then
    if startswith stripped triple_dquote || startswith stripped triple_squote
    then
      let delimiter := choose_delimiter line in
      if (2 <=? count stripped delimiter) && (6 <? List.length stripped)
      then
        let doc_content := strip_chars delimiter stripped in
        if truthy doc_content && negb (_contains_chinese doc_content)
        then
          translated <- translate_text self doc_content (py "docstring") ;;
          let indent := indent_of line in
          ret (append_line st (spaces indent ++ delimiter ++ translated ++ delimiter))
        else ret (append_line st line)
      else
        ret {| in_docstring := true;
               docstring_delimiter := Some delimiter;
               docstring_lines := [line];
               docstring_start_idx := i;
               translated_lines := translated_lines st |}
    else if mem hash line then
      let (code_part, comment_part) := _split_code_comment line in
      if truthy comment_part && negb (_contains_chinese comment_part)
      then
        translated_comment <- translate_text self comment_part (py "comment") ;;
        ret (append_line st (code_part ++ py "  # " ++ translated_comment))
      else ret (append_line st line)
    else ret (append_line st line)
  else
    let dlines := docstring_lines st ++ [line] in
    match docstring_delimiter st with
    | None => raise TypeError
    | Some delimiter =>
        if contains delimiter stripped then
          let indent := indent_of (hd [] dlines) in
          let doc_content := block_doc_content delimiter dlines in
          if truthy doc_content && negb (_contains_chinese doc_content)
          then
            translated_doc <- translate_text self doc_content (py "docstring") ;;
            ret {| in_docstring := false;
                   docstring_delimiter := Some delimiter;
                   docstring_lines := [];
                   docstring_start_idx := docstring_start_idx st;
                   translated_lines :=
                     translated_lines st
                     ++ rebuilt_block indent delimiter translated_doc |}
          else
            ret {| in_docstring := false;
                   docstring_delimiter := Some delimiter;
                   docstring_lines := [];
                   docstring_start_idx := docstring_start_idx st;
                   translated_lines := translated_lines st ++ dlines |}
        else
          ret {| in_docstring := true;
                 docstring_delimiter := Some delimiter;
                 docstring_lines := dlines;
                 docstring_start_idx := docstring_start_idx st;
                 translated_lines := translated_lines st |}
    end.

Fixpoint scan_lines (self : CommentTranslator) (i : nat) (lines : list str)
         (st : ScanState) : M ScanState :=
  match lines with
  | [] => ret st
  | line :: rest =>
      st' <- scan_line self i line st ;;
      scan_lines self (S i) rest st'
  end.

(** The body of [translate_file] between reading and writing: from the
    text of the file to [translated_content]. *)
Definition translate_content (self : CommentTranslator) (original : str)
  : M str :=
  let lines := split newline original in
  st <- scan_lines self 0 lines initial_state ;;
  ret (join newline (translated_lines st)).

Definition translate_file (self : CommentTranslator) (file_path : str)
           (dry_run : bool) : M bool :=
  try_except
    (original_content <- read_file file_path ;;
     translated_content <- translate_content self original_content ;;
     if dry_run then
       if negb (eqb translated_content original_content) then
         print (MsgRule true) ;;
         print (MsgFile file_path) ;;
         print (MsgRule false) ;;
         print MsgWillTranslate ;;
         ret true
       else
         print (MsgDryRunSkip file_path) ;;
         ret true
     else if negb (eqb translated_content original_content) then
       write_file file_path translated_content ;;
       print (MsgTranslated file_path) ;;
       ret true
     else
       print (MsgSkip file_path) ;;
       ret true)
    (fun e => print (MsgFailed file_path e) ;; ret false).

Unset Implicit Arguments.

End Translator.

(** ** Spans, as the scanner delimits them

    The source has no span object: a span is the text the loop hands to
    the translation step.  The definitions below name that text and the
    guard in front of the translation, so that statements can speak of
    them. *)

(** The guard in front of every [translate_text] call of [translate_file]:
    the text is not empty and holds no Chinese character. *)
Definition guard (text : str) : bool :=
  truthy text && negb (_contains_chinese text).

(** [stripped.startswith] of either triple quote. *)
Definition opens_docstring (line : str) : bool :=
  startswith (strip line) triple_dquote || startswith (strip line) triple_squote.

(** The test that makes a docstring line a single-line one. *)
Definition single_line (line : str) : bool :=
  (2 <=? count (strip line) (choose_delimiter line))
  && (6 <? List.length (strip line)).

(** The text of the span that [line] completes in state [st], if any. *)
Definition span_text (st : ScanState) (line : str) : option str :=
  if negb (in_docstring st) then
    if opens_docstring line then
      if single_line line
      then Some (strip_chars (choose_delimiter line) (strip line))
      else None
    else if mem hash line then Some (snd (_split_code_comment line))
    else None
  else
    match docstring_delimiter st with
    | Some delimiter =>
        if contains delimiter (strip line)
        then Some (block_doc_content delimiter (docstring_lines st ++ [line]))
        else None
    | None => None
    end.

(** The state after a line whose span, if it completes one, is not sent
    to translation: the line, or the closed block, is kept as it is. *)
Definition keep_line (i : nat) (line : str) (st : ScanState) : ScanState :=
  if negb (in_docstring st) then
    if opens_docstring line && negb (single_line line) then
      {| in_docstring := true;
         docstring_delimiter := Some (choose_delimiter line);
         docstring_lines := [line];
         docstring_start_idx := i;
         translated_lines := translated_lines st |}
    else append_line st line
  else
    match docstring_delimiter st with
    | Some delimiter =>
        if contains delimiter (strip line) then
          {| in_docstring := false;
             docstring_delimiter := Some delimiter;
             docstring_lines := [];
             docstring_start_idx := docstring_start_idx st;
             translated_lines :=
               translated_lines st ++ docstring_lines st ++ [line] |}
        else
          {| in_docstring := true;
             docstring_delimiter := Some delimiter;
             docstring_lines := docstring_lines st ++ [line];
             docstring_start_idx := docstring_start_idx st;
             translated_lines := translated_lines st |}
    | None => st
    end.

(** The context handed to [translate_text] with that span. *)
Definition span_context (st : ScanState) (line : str) : str :=
  if in_docstring st || opens_docstring line then py "docstring"
  else py "comment".

(** The lines a span is replaced by once [translate_text] has returned
    [translated]. *)
Definition rewritten (st : ScanState) (line translated : str) : list str :=
  if negb (in_docstring st) then
    if opens_docstring line then
      [spaces (indent_of line) ++ choose_delimiter line ++ translated
         ++ choose_delimiter line]
    else [fst (_split_code_comment line) ++ py "  # " ++ translated]
  else
    match docstring_delimiter st with
    | Some delimiter =>
        rebuilt_block (indent_of (hd [] (docstring_lines st ++ [line])))
                      delimiter translated
    | None => []
    end.

(** The lines of the block being accumulated. *)
Definition pending (st : ScanState) : list str :=
  if in_docstring st then docstring_lines st else [].

Definition span_kept (st : ScanState) (line : str) : bool :=
  match span_text st line with
  | Some text => negb (guard text)
  | None => true
  end.


(** *** The inline docstring content as the specification words it *)




(** *** Relating the loop of the splitter to the scan of the specification *)

(** How the two variables of the loop stand for the one of the scan. *)
Inductive quote_rel : bool -> option char -> option char -> Prop :=
| quote_outside (string_char : option char) :
    quote_rel false string_char None
| quote_inside (q : char) :
    is_quote q = true -> quote_rel true (Some q) (Some q).

(** [prev] is the character before position [length before]. *)
Definition prev_rel (before : str) (prev : option char) : Prop :=
  match prev with
  | None => before = []
  | Some c => exists b, before = b ++ [c]
  end.

(** *** The gate of [translate_text] and the failures of the backend *)

Section Gate.

Set Implicit Arguments.

Variable isalpha : char -> bool.
Variable B : Type.
Variable chat_completions_create : Client -> Request -> B -> Completion * B.

(** The gate in front of the backend call, in words. *)
Definition rejected (text : str) : Prop :=
  List.length (strip text) < 3
  \/ (forall c, In c text -> isalpha c = false)
  \/ (exists c, In c text /\ (19968 <= c <= 40959)%N).

Definition accepted (text : str) : Prop :=
  3 <= List.length (strip text)
  /\ (exists c, In c text /\ isalpha c = true)
  /\ (forall c, In c text -> ~ (19968 <= c <= 40959)%N).

(** The ways the backend call can fail: it raises, it answers with no
    choice, or the first choice carries no content. *)
Definition backend_fails (self : CommentTranslator) (text context : str)
           (w : World B) : Prop :=
  let r := fst (chat_completions_create (client self)
                  (build_request self (build_prompt text context))
                  (backend w)) in
  (exists msg, r = APIFailure msg)
  \/ r = ChatCompletion []
  \/ (exists rest, r = ChatCompletion (None :: rest)).

Unset Implicit Arguments.

End Gate.

(** ** Concrete instances, for examples *)

Module Sample.

(** The Latin letters, as a stand-in for [str.isalpha]. *)
Definition latin_isalpha (c : char) : bool :=
  ((65 <=? c) && (c <=? 90) || (97 <=? c) && (c <=? 122))%N.

Definition me : CommentTranslator :=
  {| client := {| base_url := py "http://localhost:8000/v1";
                  api_key := py "EMPTY" |};
     model := py "autoglm-phone-9b" |}.

Definition chinese_reply : str := [20013; 25991]%N.
Definition quoted_reply : str := [space; dquote; squote; 20013; 25991; squote; dquote; 10]%N.

(** Backends that keep no state. *)
Definition failing_backend : Client -> Request -> unit -> Completion * unit :=
  fun _ _ b => (APIFailure (py "connection refused"), b).
Definition empty_backend : Client -> Request -> unit -> Completion * unit :=
  fun _ _ b => (ChatCompletion [], b).
Definition fixed_backend (reply : str)
  : Client -> Request -> unit -> Completion * unit :=
  fun _ _ b => (ChatCompletion [Some reply], b).


Definition path : str := py "a.py".

(** A world with one file, at [path]. *)
Definition world_with {B : Type} (b : B) (text : str) : World B :=
  {| fs := fun p => if eqb p path
                    then Some {| content := text; writable := true |}
                    else None;
     stdout := []; backend := b; requests := [] |}.

Definition lines_text (lines : list str) : str := join newline lines.

(** A comment line after which the file still has a block opened and
    never closed. *)
Definition dangling_file : str :=
  lines_text [py "x = 1"; triple_dquote ++ py "Intro"; py "never closed"].



End Sample.

(** ** [find_python_files] and [main] *)

Definition slash : char := 47%N.

(** [s.endswith(suffix)] *)
Definition endswith (s suffix : str) : bool :=
  (List.length suffix <=? List.length s)
  && eqb (skipn (List.length s - List.length suffix) s) suffix.

(** [os.path.join(a, b)] of [posixpath]. *)
Definition path_join (a b : str) : str :=
  if startswith b [slash] then b
  else if negb (truthy a) || endswith a [slash] then a ++ b
  else a ++ slash :: b.

(** [d in exclude_dirs] *)
Definition in_list (d : str) (l : list str) : bool := existsb (eqb d) l.

(** A directory as [os.walk] reads it: the entries that are directories,
    each with what lies in it, and the names of the other entries.  A
    directory that cannot be listed, or a link to a directory (not
    followed), is an entry with nothing in it. *)
#[warnings="-register-all"]
Inductive Dir :=
| MkDir (subdirs : list (str * Dir)) (files : list str).

(** [os.walk(top)], top down.  The caller prunes [dirs] in place after
    each triple is yielded; [keep] is the test it prunes with, and the
    walk goes on into the directories that are left. *)
Fixpoint os_walk (keep : str -> bool) (top : str) (t : Dir)
  : list (str * list str * list str) :=
  match t with
  | MkDir subdirs files =>
      (top, filter keep (map fst subdirs), files)
      :: flat_map (fun d => match d with
                            | (name, sub) =>
                                if keep name
                                then os_walk keep (path_join top name) sub
                                else []
                            end) subdirs
  end.

Definition default_exclude_dirs : list str :=
  [py "venv"; py ".venv"; py "__pycache__"; py ".git"; py ".idea";
   py "build"; py "dist"; py "node_modules"].

(** The body of the [for root, dirs, files] loop: the files of one
    directory that end in [.py], joined to its path. *)
Definition python_files_of (triple : str * list str * list str) : list str :=
  match triple with
  | (root, _, files) =>
      map (path_join root)
          (filter (fun file => endswith file (py ".py")) files)
  end.

(** [disk] gives the tree found at a path when the path is a directory. *)
Definition find_python_files (disk : str -> option Dir) (directory : str)
           (exclude_dirs : option (list str)) : list str :=
  let exclude_dirs :=
    match exclude_dirs with
    | None => default_exclude_dirs
    | Some l => l
    end in
  match disk directory with
  | None => []
  | Some t =>
      flat_map python_files_of
               (os_walk (fun d => negb (in_list d exclude_dirs)) directory t)
  end.

(** The paths [find_python_files] is meant to return, said directly: a
    file that ends in [.py], in the top directory or in a directory
    reached from it through names that are all kept. *)
Inductive listed (keep : str -> bool) : str -> Dir -> str -> Prop :=
| listed_here (top : str) (subdirs : list (str * Dir)) (files : list str)
              (file : str) :
    In file files ->
    endswith file (py ".py") = true ->
    listed keep top (MkDir subdirs files) (path_join top file)
| listed_below (top : str) (subdirs : list (str * Dir)) (files : list str)
               (name : str) (sub : Dir) (p : str) :
    In (name, sub) subdirs ->
    keep name = true ->
    listed keep (path_join top name) sub p ->
    listed keep top (MkDir subdirs files) p.

(** The arguments of the command line, as [parse_args] returns them when
    it returns. *)
Record Args := {
  directory : str;
  args_base_url : str;
  args_model : str;
  apikey : str;
  dry_run : bool;
  exclude : list str
}.

(** The lines [main] prints itself. *)
Inductive main_message :=
| MainNoDirectory (directory : str)
| MainScanning (directory : str)
| MainNoFiles
| MainFound (n : nat)
| MainDryRunBanner
| MainProcessing (i n : nat) (file_path : str)
| MainRule (blank_line_first : bool)
| MainDone
| MainSuccess (success_count : nat)
| MainFail (fail_count : nat).

(** What [parser.parse_args()] does with a command line: it returns the
    arguments, or it ends the program itself (with status 2 on a command
    line it rejects, with status 0 after the help) having printed a
    text. *)
Inductive Parsed :=
| ParsedArgs (args : Args)
| ParserExit (code : N) (printed : str).

(** What is printed during [main]: its own lines and, between them, the
    lines of the translator; or the text of the argument parser. *)
Inductive console_line :=
| FromMain (m : main_message)
| FromTranslator (m : message)
| FromParser (text : str).

(** How [main] ends: it returns, it calls [sys.exit], or an exception
    leaves it. *)
Inductive outcome :=
| Returned
| Exited (code : N)
| Uncaught (e : exn).

(** [CommentTranslator(base_url=..., model=..., api_key=...)].  The
    client is what the library's constructor [OpenAI(base_url=...,
    api_key=...)] returns; that call can raise, on a URL it does not
    accept for one, and nothing catches it. *)
Definition __init__ (OpenAI : str -> str -> result Client)
           (base_url model api_key : str) : result CommentTranslator :=
  match OpenAI base_url api_key with
  | Ok c => Ok {| client := c; model := model |}
  | Raise e => Raise e
  end.

Section Main.

Set Implicit Arguments.

Variable isalpha : char -> bool.
Variable B : Type.
Variable chat_completions_create : Client -> Request -> B -> Completion * B.
Variable disk : str -> option Dir.

(** The argument parser built by [main], on a command line and in the
    environment its defaults are read from. *)
Variable parse_args : list str -> Parsed.

(** The constructor of the client library. *)
Variable OpenAI : str -> str -> result Client.

Record Session := { world : World B; console : list console_line }.

(** A [print] of [main]. *)
Definition say (m : main_message) (s : Session) : Session :=
  {| world := world s; console := console s ++ [FromMain m] |}.

(** A call of [translate_file] from [main]: what it printed goes to the
    console after what is already there. *)
Definition call_translate_file (translator : CommentTranslator)
           (file_path : str) (dry_run : bool) (s : Session)
  : result bool * Session :=
  let (r, w') := translate_file isalpha chat_completions_create translator
                                file_path dry_run (world s) in
  (r, {| world := w';
         console := console s
                    ++ map FromTranslator
                         (skipn (List.length (stdout (world s))) (stdout w')) |}).

(** [for i, file_path in enumerate(python_files, 1)] with its two
    counters; [n] is [len(python_files)]. *)
Fixpoint main_loop (translator : CommentTranslator) (dry_run : bool)
         (n i : nat) (python_files : list str)
         (success_count fail_count : nat) (s : Session)
  : result (nat * nat) * Session :=
  match python_files with
  | [] => (Ok (success_count, fail_count), s)
  | file_path :: rest =>
      let s := say (MainProcessing i n file_path) s in
      match call_translate_file translator file_path dry_run s with
      | (Ok true, s) =>
          main_loop translator dry_run n (S i) rest
                    (S success_count) fail_count s
      | (Ok false, s) =>
          main_loop translator dry_run n (S i) rest
                    success_count (S fail_count) s
      | (Raise e, s) => (Raise e, s)
      end
  end.

(** [main], on the command line [argv]. *)
Definition main (argv : list str) (w : World B) : outcome * Session :=
  let s := {| world := w; console := [] |} in
  match parse_args argv with
  | ParserExit code printed =>
      (Exited code, {| world := w; console := [FromParser printed] |})
  | ParsedArgs args =>
      match disk (directory args) with
      | None => (Exited 1, say (MainNoDirectory (directory args)) s)
      | Some _ =>
          let s := say (MainScanning (directory args)) s in
          let python_files :=
            find_python_files disk (directory args) (Some (exclude args)) in
          if (List.length python_files =? 0)
          then (Exited 0, say MainNoFiles s)
          else
            let s := say (MainFound (List.length python_files)) s in
            let s := if dry_run args then say MainDryRunBanner s else s in
            match __init__ OpenAI (args_base_url args) (args_model args)
                           (apikey args) with
            | Raise e => (Uncaught e, s)
            | Ok translator =>
                match main_loop translator (dry_run args)
                                (List.length python_files)
                                1 python_files 0 0 s with
                | (Ok (success_count, fail_count), s) =>
                    (Returned,
                     say (MainRule false)
                       (say (MainFail fail_count)
                          (say (MainSuccess success_count)
                             (say MainDone (say (MainRule true) s)))))
                | (Raise e, s) => (Uncaught e, s)
                end
            end
      end
  end.

Unset Implicit Arguments.

End Main.

(** The state the scan for the boundary is in after a text without a
    boundary: the character read last and the quote that is open. *)
Fixpoint scan_state (prev quote : option char) (s : str)
  : option (option char * option char) :=
  match s with
  | [] => Some (prev, quote)
  | c :: s' =>
      let escaped := opt_char_eqb backslash prev in
      match quote with
      | None =>
          if (c =? hash)%N then None
          else if is_quote c && negb escaped
               then scan_state (Some c) (Some c) s'
               else scan_state (Some c) None s'
      | Some q =>
          if (c =? q)%N && negb escaped
          then scan_state (Some c) None s'
          else scan_state (Some c) (Some q) s'
      end
  end.

(** A small project, for examples: a directory with two Python files,
    one of them in a package, and a virtual environment to leave out. *)
Module Project.

Definition tree : Dir :=
  MkDir [(py "venv", MkDir [] [py "x.py"]);
         (py "pkg", MkDir [] [py "b.py"; py "notes.txt"])]
        [py "a.py"; py "README.md"].

Definition disk : str -> option Dir :=
  fun d => if eqb d (py "proj") then Some tree else None.

(** A stand-in for the client library: it accepts any URL that starts
    with [http]. *)
Definition OpenAI (base_url api_key : str) : result Client :=
  if startswith base_url (py "http")
  then Ok {| base_url := base_url; api_key := api_key |}
  else Raise (OpenAIError (py "Invalid URL")).

Definition args (preview : bool) : Args :=
  {| directory := py "proj";
     args_base_url := py "http://localhost:8000/v1";
     args_model := py "autoglm-phone-9b";
     apikey := py "EMPTY";
     dry_run := preview;
     exclude := [py "venv"; py ".venv"; py "__pycache__"; py ".git";
                 py ".idea"] |}.

(** [proj/a.py] can be read, [proj/pkg/b.py] cannot. *)
Definition start : World unit :=
  {| fs := fun p => if eqb p (py "proj/a.py")
                    then Some {| content := py "x = 1  # hello";
                                 writable := true |}
                    else if eqb p (py "proj/venv/x.py")
                         then Some {| content := py "# vendored";
                                      writable := true |}
                         else None;
     stdout := []; backend := tt; requests := [] |}.

(** A stand-in for the argument parser: the first word is the
    directory, [--dry-run] may follow, and an empty command line is
    rejected. *)
Definition parse_args (argv : list str) : Parsed :=
  match argv with
  | [] => ParserExit 2 (py "the following arguments are required: directory")
  | d :: flags =>
      ParsedArgs {| directory := d;
                    args_base_url := args_base_url (args false);
                    args_model := args_model (args false);
                    apikey := apikey (args false);
                    dry_run := existsb (eqb (py "--dry-run")) flags;
                    exclude := exclude (args false) |}
  end.

End Project.

(** * Properties *)

(** ** Strings *)

Lemma mem_In (c : char) (s : str) : mem c s = true <-> In c s.
Proof.
  unfold mem. rewrite existsb_exists. split.
  - intros [x [Hin Heq]]. apply N.eqb_eq in Heq. now subst.
  - intros Hin. exists c. split; [assumption | apply N.eqb_refl].
Qed.

Lemma dropwhile_hd (p : char -> bool) (s : str) (c : char) (t : str) :
  dropwhile p s = c :: t -> p c = false.
Proof.
  induction s as [|a s IH]; simpl; [discriminate|].
  destruct (p a) eqn:Ha; [exact IH|].
  intros H. injection H as -> _. exact Ha.
Qed.

Lemma dropwhile_stop (p : char -> bool) (c : char) (s : str) :
  p c = false -> dropwhile p (c :: s) = c :: s.
Proof. intros H. simpl. now rewrite H. Qed.

Lemma dropwhile_all (p : char -> bool) (d s : str) :
  forallb p d = true -> dropwhile p (d ++ s) = dropwhile p s.
Proof.
  induction d as [|a d IH]; simpl; [reflexivity|].
  intros H. apply andb_true_iff in H as [Ha Hd]. rewrite Ha. now apply IH.
Qed.

Lemma forallb_rev_true (p : char -> bool) (d : str) :
  forallb p d = true -> forallb p (rev d) = true.
Proof.
  rewrite !forallb_forall. intros H x Hx. apply H. now apply in_rev.
Qed.

(** What [strip_by] returns neither begins nor ends with a stripped
    character. *)
Lemma strip_by_hd (p : char -> bool) (s : str) (c : char) (t : str) :
  strip_by p s = c :: t -> p c = false.
Proof.
  unfold strip_by, rstrip_by, lstrip_by. intros H.
  destruct (dropwhile p s) as [|a u] eqn:Hs.
  - simpl in H. discriminate.
  - pose proof (dropwhile_hd _ _ _ _ Hs) as Ha.
    destruct (dropwhile p (rev (a :: u))) as [|b v] eqn:Hr.
    + simpl in H. discriminate.
    + (* the reversed remainder still ends with [a] *)
      assert (Hlast : exists v', rev (b :: v) = a :: v').
      { clear H. revert b v Hr. generalize (eq_refl (rev (a :: u))).
        generalize (rev (a :: u)) at 2 3. intros l Hl.
        assert (Hend : exists l0, l = l0 ++ [a]) by (exists (rev u); now rewrite <- Hl).
        clear Hl. destruct Hend as [l0 ->].
        induction l0 as [|x l0 IH]; intros b v Hr.
        - simpl in Hr. rewrite Ha in Hr. injection Hr as <- <-. now exists [].
        - simpl in Hr. destruct (p x).
          + now apply IH.
          + injection Hr as <- <-. simpl. rewrite rev_app_distr. simpl. now eexists. }
      destruct Hlast as [v' Hv']. rewrite Hv' in H. injection H as <- _. exact Ha.
Qed.

Lemma strip_by_last (p : char -> bool) (s t : str) (c : char) :
  strip_by p s = t ++ [c] -> p c = false.
Proof.
  unfold strip_by, rstrip_by. intros H.
  apply (f_equal (@rev char)) in H. rewrite rev_involutive, rev_app_distr in H.
  simpl in H. now apply dropwhile_hd in H.
Qed.


Lemma eqb_eq (a b : str) : eqb a b = true <-> a = b.
Proof. unfold eqb. destruct (list_eq_dec N.eq_dec a b); split; congruence. Qed.

Lemma eqb_refl (a : str) : eqb a a = true.
Proof. now apply eqb_eq. Qed.



(** ** The splitter *)

Lemma find_boundary_no_hash (rest before : str) (prev quote : option char) :
  mem hash rest = false -> find_boundary before prev quote rest = None.
Proof.
  revert before prev quote.
  induction rest as [|c rest IH]; intros before prev quote H;
    cbn [find_boundary]; [reflexivity|].
  unfold mem in H. cbn [existsb] in H. apply orb_false_iff in H as [Hc Hrest].
  rewrite N.eqb_sym in Hc.
  destruct quote as [q|].
  - destruct ((c =? q)%N && _); now apply IH.
  - rewrite Hc. destruct (is_quote c && _); now apply IH.
Qed.

Lemma escape_test (line before rest : str) (prev : option char) :
  line = before ++ rest -> prev_rel before prev ->
  (List.length before =? 0)
  || negb (nth (List.length before - 1) line 0%N =? backslash)%N
  = negb (opt_char_eqb backslash prev).
Proof.
  intros -> Hprev. destruct prev as [c|]; simpl in *.
  - destruct Hprev as [b ->]. rewrite length_app. simpl.
    replace (List.length b + 1 - 1) with (List.length b) by lia.
    replace (List.length b + 1 =? 0) with false
      by (symmetry; apply Nat.eqb_neq; lia).
    rewrite <- app_assoc. cbn [app]. rewrite nth_middle. cbn [opt_char_eqb].
    now rewrite N.eqb_sym.
  - subst before. reflexivity.
Qed.

Lemma is_quote_not_hash (c : char) : is_quote c = true -> (c =? hash)%N = false.
Proof.
  unfold is_quote, dquote, squote, hash. intros H.
  apply orb_true_iff in H as [H|H]; apply N.eqb_eq in H; subst; reflexivity.
Qed.

Lemma split_loop_boundary (line : str) :
  forall rest before in_string string_char prev quote,
    line = before ++ rest ->
    prev_rel before prev ->
    quote_rel in_string string_char quote ->
    split_loop line (List.length before) rest in_string string_char =
    match find_boundary before prev quote rest with
    | Some (b, a) => (rstrip b, strip a)
    | None => (line, [])
    end.
Proof.
  induction rest as [|c rest IH]; intros before in_string string_char prev quote
    Hline Hprev Hq; [reflexivity|].
  assert (Hnext : line = (before ++ [c]) ++ rest) by (now rewrite <- app_assoc).
  assert (Hlen : S (List.length before) = List.length (before ++ [c]))
    by (rewrite length_app; simpl; lia).
  assert (Hp : prev_rel (before ++ [c]) (Some c)) by (now exists before).
  cbn [split_loop find_boundary]. rewrite (@escape_test line before (c :: rest) prev Hline Hprev). rewrite Hlen.
  destruct Hq as [string_char | q Hquote]; cbn [negb opt_char_eqb].
  - (* outside a literal *)
    destruct (c =? hash)%N eqn:Hc.
    + apply N.eqb_eq in Hc. subst c.
      replace (is_quote hash) with false by reflexivity. cbn [andb].
      f_equal; f_equal.
      * rewrite Hline, firstn_app, firstn_all, Nat.sub_diag. cbn [firstn].
        apply app_nil_r.
      * rewrite Hnext, skipn_app, skipn_all, Nat.sub_diag. reflexivity.
    + cbn [andb].
      destruct (is_quote c && negb (opt_char_eqb backslash prev)) eqn:Hopen.
      * apply (IH _ _ _ _ _ Hnext Hp).
        apply andb_true_iff in Hopen as [Hopen _]. now constructor.
      * apply (IH _ _ _ _ _ Hnext Hp). constructor.
  - (* inside a literal opened by [q] *)
    rewrite andb_false_r.
    destruct (is_quote c && negb (opt_char_eqb backslash prev)) eqn:Hopen;
      destruct (c =? q)%N eqn:Hcq; cbn [andb].
    + apply andb_true_iff in Hopen as [_ Hesc]. rewrite Hesc.
      apply (IH _ _ _ _ _ Hnext Hp). constructor.
    + apply (IH _ _ _ _ _ Hnext Hp). now constructor.
    + apply N.eqb_eq in Hcq. subst c. rewrite Hquote in Hopen.
      cbn [andb] in Hopen. rewrite Hopen.
      apply (IH _ _ _ _ _ Hnext Hp). now constructor.
    + apply (IH _ _ _ _ _ Hnext Hp). now constructor.
Qed.

(** C3 (counterexample): on a comment with trailing blanks the code and
    the reference splitter of the specification differ: the code trims
    the comment part at both ends, the reference only on the left. *)
Lemma split_differs_from_reference :
  _split_code_comment (py "x = 1  # set x  ") = (py "x = 1", py "set x")
  /\ split_reference (py "x = 1  # set x  ") = (py "x = 1", py "set x  ")
  /\ _split_code_comment (py "x = 1  # set x  ")
     <> split_reference (py "x = 1  # set x  ").
Proof. repeat split; try reflexivity. vm_compute. discriminate. Qed.

(** C3, as the code has it: for every line, [_split_code_comment] is the
    scan of the specification (a quote flag that an escaped quote does not
    toggle, the first [#] outside a quoted literal as boundary) with the
    code part right-trimmed and the comment part trimmed at both ends;
    without an unquoted [#] it returns the line and the empty string. *)
Theorem split_code_comment_scan (line : str) :
  _split_code_comment line = split_both_trimmed line.
Proof.
  unfold _split_code_comment, split_both_trimmed.
  destruct (mem hash line) eqn:Hmem; simpl.
  - apply (@split_loop_boundary line line [] false None None None eq_refl eq_refl).
    constructor.
  - now rewrite find_boundary_no_hash.
Qed.

(** ** The translation step *)

Lemma contains_chinese_spec (text : str) :
  _contains_chinese text = true
  <-> exists c, In c text /\ (19968 <= c <= 40959)%N.
Proof.
  unfold _contains_chinese. rewrite existsb_exists.
  split; intros [c [Hin Hc]]; exists c; split; try assumption.
  - apply andb_true_iff in Hc as [H1 H2].
    apply N.leb_le in H1, H2. lia.
  - apply andb_true_iff. split; apply N.leb_le; lia.
Qed.

Lemma quote_set (c : char) :
  mem c [dquote; squote] = false -> c <> dquote /\ c <> squote.
Proof.
  unfold mem. cbn [existsb]. rewrite !orb_false_iff.
  intros [H1 [H2 _]]. apply N.eqb_neq in H1, H2. now split.
Qed.

Section TranslateText.

Variable isalpha : char -> bool.
Variable B : Type.
Variable chat_completions_create : Client -> Request -> B -> Completion * B.

Local Abbreviation translate :=
  (translate_text isalpha chat_completions_create).

Lemma accepted_tests (text : str) :
  accepted isalpha text ->
  _contains_chinese text = false
  /\ (List.length (strip text) <? 3) || negb (existsb isalpha text) = false.
Proof.
  intros [Hlen [[a [Hin Ha]] Hzh]]. split.
  - destruct (_contains_chinese text) eqn:E; [|reflexivity].
    apply contains_chinese_spec in E as [c [Hc Hr]]. now apply Hzh in Hc.
  - apply orb_false_iff. split.
    + apply Nat.ltb_ge. exact Hlen.
    + apply negb_false_iff, existsb_exists. now exists a.
Qed.

(** [translate_text] always returns, and touches neither the files nor
    anything but the backend and the output. *)
Lemma translate_text_returns (self : CommentTranslator) (text context : str)
      (w : World B) :
  exists t w', translate self text context w = (Ok t, w')
               /\ fs w' = fs w.
Proof.
  unfold translate, translate_text.
  destruct (_contains_chinese text); [now exists text, w|].
  destruct (_ || _); [now exists text, w|].
  unfold try_except, bind, create, print, ret, raise.
  destruct (chat_completions_create _ _ _) as [[msg|choices] b]; cbn.
  - eexists _, _. split; reflexivity.
  - destruct choices as [|[reply|] rest]; cbn;
      eexists _, _; split; reflexivity.
Qed.

(** C7: a text whose stripped form has fewer than 3 characters, or that
    holds no alphabetic character, or that holds a code point in
    U+4E00..U+9FFF, is returned unchanged, and the world with it: no
    request reaches the backend. *)
Theorem gate_rejects_without_backend (self : CommentTranslator)
        (text context : str) (w : World B) :
  rejected isalpha text ->
  translate self text context w = (Ok text, w).
Proof.
  intros H. unfold translate, translate_text.
  destruct (_contains_chinese text) eqn:Hzh; [reflexivity|].
  destruct ((List.length (strip text) <? 3) || negb (existsb isalpha text))
    eqn:Hgate; [reflexivity|].
  exfalso. apply orb_false_iff in Hgate as [Hlen Halpha].
  destruct H as [H | [H | H]].
  - apply Nat.ltb_ge in Hlen. lia.
  - apply negb_false_iff, existsb_exists in Halpha as [c [Hin Hc]].
    rewrite (H c Hin) in Hc. discriminate.
  - apply contains_chinese_spec in H. congruence.
Qed.

(** C6: when the backend call fails (it raises, or answers with an empty
    choice list), [translate_text] returns the original text: the
    result is a value, never an exception, and no file is touched. *)
Theorem backend_failure_keeps_text (self : CommentTranslator)
        (text context : str) (w : World B) :
  backend_fails chat_completions_create self text context w ->
  exists w', translate self text context w = (Ok text, w')
             /\ fs w' = fs w.
Proof.
  unfold backend_fails, translate, translate_text. intros H.
  destruct (_contains_chinese text); [now exists w|].
  destruct (_ || _); [now exists w|].
  unfold try_except, bind, create, print, ret, raise.
  destruct (chat_completions_create _ _ _) as [r b]. cbn in H.
  destruct H as [[msg ->] | [-> | [rest ->]]]; cbn;
    eexists; split; reflexivity.
Qed.

(** C10: for an accepted text to which the backend replies, the value
    returned is the reply with blanks trimmed and then every leading
    and trailing double or single quote removed; it neither begins nor
    ends with a quote character. *)
Theorem reply_quotes_stripped (self : CommentTranslator)
        (text context reply : str) (rest : list (option str)) (w : World B) :
  accepted isalpha text ->
  fst (chat_completions_create (client self)
         (build_request self (build_prompt text context)) (backend w))
  = ChatCompletion (Some reply :: rest) ->
  let translated := strip_chars [dquote; squote] (strip reply) in
  (exists w', translate self text context w = (Ok translated, w'))
  /\ (forall c t, translated = c :: t -> c <> dquote /\ c <> squote)
  /\ (forall t c, translated = t ++ [c] -> c <> dquote /\ c <> squote).
Proof.
  intros Hacc Hreply translated. repeat split.
  - unfold translate, translate_text.
    destruct (accepted_tests _ Hacc) as [-> ->].
    unfold try_except, bind, create, print, ret, raise.
    destruct (chat_completions_create _ _ _) as [r b]. cbn in Hreply.
    subst r. cbn. eexists. reflexivity.
  - apply quote_set.
    exact (@strip_by_hd (fun x => mem x [dquote; squote]) _ _ _ H).
  - apply quote_set.
    exact (@strip_by_hd (fun x => mem x [dquote; squote]) _ _ _ H).
  - apply quote_set.
    exact (@strip_by_last (fun x => mem x [dquote; squote]) _ _ _ H).
  - apply quote_set.
    exact (@strip_by_last (fun x => mem x [dquote; squote]) _ _ _ H).
Qed.

End TranslateText.

(** ** The scan of a file *)

Lemma guard_false (text : str) :
  guard text = false <-> text = [] \/ _contains_chinese text = true.
Proof.
  unfold guard. destruct text as [|c t]; cbn [truthy andb].
  - split; auto.
  - rewrite negb_false_iff. split; [auto | intros [H|H]; [discriminate | exact H]].
Qed.

Lemma keep_line_pending (i : nat) (line : str) (st : ScanState) :
  (in_docstring st = true -> docstring_delimiter st <> None) ->
  translated_lines (keep_line i line st) ++ pending (keep_line i line st)
  = translated_lines st ++ pending st ++ [line].
Proof.
  intros Hwf. unfold keep_line, pending.
  destruct (in_docstring st) eqn:Hin; cbn [negb].
  - destruct (docstring_delimiter st) as [d|]; [|now destruct Hwf].
    destruct (contains d (strip line)); cbn.
    + now rewrite app_nil_r.
    + reflexivity.
  - destruct (opens_docstring line && negb (single_line line)); cbn.
    + reflexivity.
    + rewrite Hin. now rewrite app_nil_r.
Qed.

Section Scan.

Variable isalpha : char -> bool.
Variable B : Type.
Variable chat_completions_create : Client -> Request -> B -> Completion * B.

Local Abbreviation translate :=
  (translate_text isalpha chat_completions_create).
Local Abbreviation scan :=
  (scan_line isalpha chat_completions_create).

(** A line that completes no span to translate leaves the world alone
    and moves the state by [keep_line]. *)
Lemma scan_line_kept (self : CommentTranslator) (i : nat) (line : str)
      (st : ScanState) (w : World B) :
  (in_docstring st = true -> docstring_delimiter st <> None) ->
  span_kept st line = true ->
  scan self i line st w = (Ok (keep_line i line st), w).
Proof.
  intros Hwf. unfold span_kept, span_text, scan_line, keep_line.
  unfold opens_docstring, single_line, guard. cbv zeta.
  destruct (in_docstring st) eqn:Hin; cbn [negb].
  - destruct (docstring_delimiter st) as [d|]; [|now destruct Hwf].
    destruct (contains d (strip line)); [|reflexivity].
    intros Hg. apply negb_true_iff in Hg. rewrite Hg. reflexivity.
  - destruct (startswith (strip line) triple_dquote
              || startswith (strip line) triple_squote).
    + destruct ((2 <=? count (strip line) (choose_delimiter line))
                && (6 <? List.length (strip line))); cbn [negb andb].
      * intros Hg. apply negb_true_iff in Hg. rewrite Hg. reflexivity.
      * reflexivity.
    + cbn [andb]. destruct (mem hash line); [|reflexivity].
      destruct (_split_code_comment line) as [code_part comment_part].
      cbn [snd]. intros Hg. apply negb_true_iff in Hg. rewrite Hg. reflexivity.
Qed.

(** What a line that completes a span does, by the guard on the text of
    the span. *)
Lemma scan_line_span (self : CommentTranslator) (i : nat) (line text : str)
        (st : ScanState) (w : World B) :
  span_text st line = Some text ->
  if guard text then
    exists t w',
      translate self text (span_context st line) w = (Ok t, w')
      /\ exists st', scan self i line st w = (Ok st', w')
                     /\ in_docstring st' = false
                     /\ translated_lines st'
                        = translated_lines st ++ rewritten st line t
  else
    exists st', scan self i line st w = (Ok st', w)
                /\ in_docstring st' = false
                /\ translated_lines st'
                   = translated_lines st ++ pending st ++ [line].
Proof.
  intros Hspan. destruct (guard text) eqn:Hg.
  - revert Hspan. unfold span_text, span_context, rewritten, scan_line.
    unfold opens_docstring, single_line. cbv zeta.
    destruct (in_docstring st) eqn:Hin; cbn [negb orb].
    + destruct (docstring_delimiter st) as [d|]; [|discriminate].
      destruct (contains d (strip line)); [|discriminate].
      intros [= <-]. unfold guard in Hg. rewrite Hg.
      destruct (translate_text_returns isalpha B chat_completions_create self
                  (block_doc_content d (docstring_lines st ++ [line]))
                  (py "docstring") w) as (t & w' & Ht & _).
      exists t, w'. split; [exact Ht|]. unfold bind. rewrite Ht.
      eexists. split; [reflexivity|]. split; reflexivity.
    + destruct (startswith (strip line) triple_dquote
                || startswith (strip line) triple_squote).
      * destruct ((2 <=? count (strip line) (choose_delimiter line))
                  && (6 <? List.length (strip line))); [|discriminate].
        intros [= <-]. unfold guard in Hg. rewrite Hg.
        destruct (translate_text_returns isalpha B chat_completions_create self
                    (strip_chars (choose_delimiter line) (strip line))
                    (py "docstring") w) as (t & w' & Ht & _).
        exists t, w'. split; [exact Ht|]. unfold bind. rewrite Ht.
        eexists. split; [reflexivity|]. split; [exact Hin | reflexivity].
      * destruct (mem hash line); [|discriminate].
        destruct (_split_code_comment line) as [code_part comment_part].
        cbn [fst snd]. intros [= <-]. unfold guard in Hg. rewrite Hg.
        destruct (translate_text_returns isalpha B chat_completions_create self
                    comment_part (py "comment") w) as (t & w' & Ht & _).
        exists t, w'. split; [exact Ht|]. unfold bind. rewrite Ht.
        eexists. split; [reflexivity|]. split; [exact Hin | reflexivity].
  - assert (Hwf : in_docstring st = true -> docstring_delimiter st <> None).
    { intros Hin. unfold span_text in Hspan. rewrite Hin in Hspan.
      cbn [negb] in Hspan. now destruct (docstring_delimiter st). }
    assert (Hkept : span_kept st line = true).
    { unfold span_kept. now rewrite Hspan, Hg. }
    exists (keep_line i line st). split; [now apply scan_line_kept|].
    pose proof (keep_line_pending i line st Hwf) as Hp.
    assert (Hidle : in_docstring (keep_line i line st) = false).
    { revert Hspan. unfold span_text, keep_line.
      destruct (in_docstring st) eqn:Hin; cbn [negb].
      - destruct (docstring_delimiter st) as [d|]; [|discriminate].
        now destruct (contains d (strip line)).
      - destruct (opens_docstring line); cbn [andb].
        + now destruct (single_line line).
        + intros _. exact Hin. }
    split; [exact Hidle|].
    unfold pending in Hp at 1. rewrite Hidle, app_nil_r in Hp. exact Hp.
Qed.

(** The scan never touches the file system. *)
Lemma scan_line_fs (self : CommentTranslator) (i : nat) (line : str)
      (st : ScanState) (w : World B) :
  fs (snd (scan self i line st w)) = fs w.
Proof.
  destruct (span_text st line) as [text|] eqn:Hspan.
  - pose proof (scan_line_span self i line text st w Hspan) as H.
    destruct (guard text).
    + destruct H as (t & w' & Ht & st' & -> & _).
      destruct (translate_text_returns isalpha B chat_completions_create self
                  text (span_context st line) w) as (t0 & w0 & Ht0 & Hfs).
      rewrite Ht in Ht0. injection Ht0 as _ <-. exact Hfs.
    + destruct H as (st' & -> & _). reflexivity.
  - destruct (in_docstring st) eqn:Hin.
    + destruct (docstring_delimiter st) as [d|] eqn:Hd.
      * rewrite scan_line_kept; [reflexivity | rewrite Hd; discriminate |].
        unfold span_kept. now rewrite Hspan.
      * unfold scan_line. cbv zeta. rewrite Hin, Hd. reflexivity.
    + rewrite scan_line_kept; [reflexivity | rewrite Hin; discriminate |].
      unfold span_kept. now rewrite Hspan.
Qed.

Lemma scan_lines_fs (self : CommentTranslator) (lines : list str) :
  forall (i : nat) (st : ScanState) (w : World B),
    fs (snd (scan_lines isalpha chat_completions_create self i lines st w))
    = fs w.
Proof.
  induction lines as [|line rest IH]; intros i st w; cbn [scan_lines].
  - reflexivity.
  - unfold bind. pose proof (scan_line_fs self i line st w) as H.
    destruct (scan self i line st w) as [[st'|e] w']; cbn [snd] in H.
    + now rewrite IH.
    + exact H.
Qed.

Lemma translate_content_fs (self : CommentTranslator) (original : str)
      (w : World B) :
  fs (snd (translate_content isalpha chat_completions_create self original w))
  = fs w.
Proof.
  unfold translate_content, bind. cbv zeta.
  pose proof (scan_lines_fs self (split newline original) 0 initial_state w) as H.
  destruct (scan_lines _ _ _ _ _ _ _) as [[st'|e] w']; exact H.
Qed.

(** C8: the file system after [translate_file].  The file is written
    only outside dry-run mode and only when the transformed text differs
    from the text read; in dry-run mode, and whenever the two texts are
    equal, the file system is left as it was.  A write that takes place
    stores the transformed text, or leaves the file empty when the text
    cannot be encoded. *)
Theorem translate_file_writes (self : CommentTranslator) (file_path : str)
        (dry_run : bool) (w : World B) :
  fs (snd (translate_file isalpha chat_completions_create self file_path
             dry_run w))
  = match fs w file_path with
    | Some f =>
        match fst (translate_content isalpha chat_completions_create self
                     (content f) w) with
        | Ok translated_content =>
            if negb dry_run && negb (eqb translated_content (content f))
               && writable f
            then fs_write (fs w) file_path
                          (if existsb is_surrogate translated_content
                           then [] else translated_content)
            else fs w
        | Raise _ => fs w
        end
    | None => fs w
    end.
Proof.
  unfold translate_file, try_except, bind, read_file.
  destruct (fs w file_path) as [f|] eqn:Hf; [|reflexivity].
  pose proof (translate_content_fs self (content f) w) as Hfs.
  destruct (translate_content _ _ _ _ _) as [[translated|e] w1];
    cbn [fst snd] in *; [|exact Hfs].
  destruct dry_run; cbn [negb andb].
  - destruct (negb (eqb translated (content f))); exact Hfs.
  - destruct (negb (eqb translated (content f))); cbn [andb]; [|exact Hfs].
    unfold write_file. rewrite Hfs, Hf.
    destruct f as [data [|]]; cbn [writable]; [|exact Hfs].
    destruct (existsb is_surrogate translated); reflexivity.
Qed.



(** C2, as the code has it: a span whose text is empty or holds a Chinese
    character is not sent to translation: the world is untouched and its
    line, or the lines of its block, go to the output as they are. Every
    other span is replaced by lines rebuilt from what [translate_text]
    returns, whatever that is: the code never compares it with the
    original. *)
Theorem span_outcome (self : CommentTranslator) (i : nat) (line text : str)
        (st : ScanState) (w : World B) :
  span_text st line = Some text ->
  (text = [] \/ (exists c, In c text /\ (19968 <= c <= 40959)%N) ->
   exists st', scan self i line st w = (Ok st', w)
               /\ in_docstring st' = false
               /\ translated_lines st'
                  = translated_lines st ++ pending st ++ [line])
  /\ (text <> [] ->
      (forall c, In c text -> ~ (19968 <= c <= 40959)%N) ->
      exists t w',
        translate self text (span_context st line) w = (Ok t, w')
        /\ exists st', scan self i line st w = (Ok st', w')
                       /\ in_docstring st' = false
                       /\ translated_lines st'
                          = translated_lines st ++ rewritten st line t).
Proof.
  intros Hspan.
  pose proof (scan_line_span self i line text st w Hspan) as H.
  split.
  - intros Hkept.
    assert (Hg : guard text = false).
    { apply guard_false. destruct Hkept as [He | Hzh]; [now left | right].
      now apply contains_chinese_spec. }
    rewrite Hg in H. exact H.
  - intros Hne Hzh.
    assert (Hg : guard text = true).
    { destruct (guard text) eqn:Hg; [reflexivity|].
      apply guard_false in Hg as [He | Hc]; [contradiction|].
      apply contains_chinese_spec in Hc as (c & Hin & Hc).
      now destruct (Hzh c Hin). }
    rewrite Hg in H. exact H.
Qed.

End Scan.

(** ** Single-line docstrings and the delimiter *)



Lemma startswith_nil (s : str) : startswith s [] = true.
Proof. now destruct s. Qed.




Section Docstrings.

Variable isalpha : char -> bool.
Variable B : Type.
Variable chat_completions_create : Client -> Request -> B -> Completion * B.

Local Abbreviation translate :=
  (translate_text isalpha chat_completions_create).
Local Abbreviation scan :=
  (scan_line isalpha chat_completions_create).

(** A single-line docstring is handled at once: one output line, the
    line itself when the guard turns its content away, else the content
    as translated, between the delimiters. *)
Lemma inline_docstring_scan (self : CommentTranslator) (i : nat)
      (line : str) (st : ScanState) (w : World B) :
  in_docstring st = false ->
  opens_docstring line = true ->
  single_line line = true ->
  let delimiter := choose_delimiter line in
  let doc_content := strip_chars delimiter (strip line) in
  exists st' w' l,
    scan self i line st w = (Ok st', w')
    /\ in_docstring st' = false
    /\ translated_lines st' = translated_lines st ++ [l]
    /\ if guard doc_content
       then exists t,
           translate self doc_content (py "docstring") w = (Ok t, w')
           /\ l = spaces (indent_of line) ++ delimiter ++ t ++ delimiter
       else l = line /\ w' = w.
Proof.
  intros Hin Hopen Hsingle delimiter doc_content.
  assert (Hspan : span_text st line = Some doc_content).
  { unfold span_text. now rewrite Hin, Hopen, Hsingle. }
  pose proof (scan_line_span isalpha B chat_completions_create self i line
                doc_content st w Hspan) as H.
  destruct (guard doc_content).
  - destruct H as (t & w' & Ht & st' & Hrun & Hidle & Hout).
    exists st', w', (spaces (indent_of line) ++ delimiter ++ t ++ delimiter).
    split; [exact Hrun|]. split; [exact Hidle|]. split.
    + rewrite Hout. unfold rewritten. now rewrite Hin, Hopen.
    + exists t. split; [|reflexivity].
      unfold span_context in Ht. now rewrite Hin, Hopen in Ht.
  - destruct H as (st' & Hrun & Hidle & Hout).
    exists st', w, line. split; [exact Hrun|]. split; [exact Hidle|].
    split; [|now split]. rewrite Hout. unfold pending. now rewrite Hin.
Qed.


(** C9: outside a block, for a line whose stripped form starts with a
    triple quote, the delimiter is three double quotes whenever they occur
    anywhere in the raw line and three single quotes only otherwise.  It
    is the delimiter recorded when the line opens a block, and the one the
    single-line test counts and the rebuilt line is wrapped in. *)
Theorem delimiter_flavor (self : CommentTranslator) (i : nat) (line : str)
        (st : ScanState) (w : World B) :
  in_docstring st = false ->
  opens_docstring line = true ->
  let delimiter :=
    if contains triple_dquote line then triple_dquote else triple_squote in
  exists st' w',
    scan self i line st w = (Ok st', w')
    /\ if (2 <=? count (strip line) delimiter) && (6 <? List.length (strip line))
       then in_docstring st' = false
            /\ exists l, translated_lines st' = translated_lines st ++ [l]
                         /\ (l = line
                             \/ exists t, l = spaces (indent_of line)
                                              ++ delimiter ++ t ++ delimiter)
       else in_docstring st' = true
            /\ docstring_delimiter st' = Some delimiter
            /\ docstring_lines st' = [line]
            /\ translated_lines st' = translated_lines st.
Proof.
  intros Hin Hopen delimiter.
  change delimiter with (choose_delimiter line).
  destruct ((2 <=? count (strip line) (choose_delimiter line))
            && (6 <? List.length (strip line))) eqn:Hsingle.
  - destruct (inline_docstring_scan self i line st w Hin Hopen Hsingle)
      as (st' & w' & l & Hrun & Hidle & Hout & Hl).
    exists st', w'. split; [exact Hrun|]. split; [exact Hidle|].
    exists l. split; [exact Hout|].
    destruct (guard _).
    + right. destruct Hl as (t & _ & ->). now exists t.
    + left. apply Hl.
  - eexists _, w. split.
    + apply scan_line_kept.
      * rewrite Hin. discriminate.
      * unfold span_kept, span_text, single_line.
        now rewrite Hin, Hopen, Hsingle.
    + unfold keep_line, single_line. rewrite Hin, Hopen, Hsingle. cbn.
      repeat split.
Qed.

(** Inside a block whose delimiter never comes again, every line is put
    aside and nothing more reaches [translated_lines]. *)
Lemma scan_lines_dangling (self : CommentTranslator) (delimiter : str)
      (body : list str) :
  forall (i : nat) (st : ScanState) (w : World B),
    in_docstring st = true ->
    docstring_delimiter st = Some delimiter ->
    Forall (fun l => contains delimiter (strip l) = false) body ->
    exists st',
      scan_lines isalpha chat_completions_create self i body st w = (Ok st', w)
      /\ in_docstring st' = true
      /\ translated_lines st' = translated_lines st
      /\ docstring_lines st' = docstring_lines st ++ body.
Proof.
  induction body as [|line rest IH]; intros i st w Hin Hd Hbody.
  - exists st. cbn. rewrite app_nil_r. auto.
  - inversion Hbody as [|? ? Hline Hrest]; subst.
    cbn [scan_lines]. unfold bind.
    rewrite scan_line_kept.
    + assert (Hk : keep_line i line st
                   = {| in_docstring := true;
                        docstring_delimiter := Some delimiter;
                        docstring_lines := docstring_lines st ++ [line];
                        docstring_start_idx := docstring_start_idx st;
                        translated_lines := translated_lines st |}).
      { unfold keep_line. now rewrite Hin, Hd, Hline. }
      destruct (IH (S i) (keep_line i line st) w) as (st' & Hrun & H1 & H2 & H3);
        [now rewrite Hk | now rewrite Hk | exact Hrest |].
      rewrite Hk in H2, H3. cbn in H2, H3.
      exists st'. split; [exact Hrun|]. split; [exact H1|].
      split; [exact H2|]. rewrite H3. now rewrite <- app_assoc.
    + rewrite Hd. discriminate.
    + unfold span_kept, span_text. now rewrite Hin, Hd, Hline.
Qed.

End Docstrings.

(** ** The properties at concrete inputs *)

Module Examples.

Import Sample.

(** Every character of a concrete text, one by one. *)
Ltac each_char H :=
  repeat (destruct H as [<- | H]; [vm_compute; intuition discriminate|]);
  destruct H.

(** C1: a file that ends inside a block that is never closed.  The lines
    put aside for the block are not given back: the pass writes the file
    with only what came before the block. *)
Theorem dangling_block_is_lost :
  let w := world_with tt dangling_file in
  let out := translate_file latin_isalpha (fixed_backend chinese_reply) me
               path false w in
  fst out = Ok true
  /\ fs (snd out) path = Some {| content := py "x = 1"; writable := true |}
  /\ requests (snd out) = []
  /\ stdout (snd out) = [MsgTranslated path].
Proof. vm_compute. repeat split. Qed.

(** C2 (counterexample): the comment [ab] comes back from
    [translate_text] identical, and an empty reply gives an empty result;
    in both cases the line is rebuilt, not kept. *)
Lemma identical_result_line_rebuilt :
  let w := world_with tt [] in
  let run_line backend_call line :=
    scan_line latin_isalpha backend_call me 0 line initial_state w in
  (span_text initial_state (py "x = 1 # ab") = Some (py "ab")
   /\ translate_text latin_isalpha (fixed_backend chinese_reply) me (py "ab")
        (py "comment") w = (Ok (py "ab"), w)
   /\ exists st', run_line (fixed_backend chinese_reply) (py "x = 1 # ab")
                  = (Ok st', w)
                  /\ translated_lines st' = [py "x = 1  # ab"]
                  /\ translated_lines st' <> [py "x = 1 # ab"])
  /\ (span_text initial_state (py "x = 1  # note") = Some (py "note")
      /\ exists st' w',
          translate_text latin_isalpha (fixed_backend []) me (py "note")
            (py "comment") w = (Ok [], w')
          /\ run_line (fixed_backend []) (py "x = 1  # note") = (Ok st', w')
          /\ translated_lines st' = [py "x = 1  # "]
          /\ translated_lines st' <> [py "x = 1  # note"]).
Proof.
  split.
  - split; [reflexivity|]. split; [reflexivity|].
    eexists. split; [vm_compute; reflexivity|]. split; [reflexivity|].
    vm_compute. discriminate.
  - split; [reflexivity|].
    eexists _, _. split; [vm_compute; reflexivity|].
    split; [vm_compute; reflexivity|]. split; [reflexivity|].
    vm_compute. discriminate.
Qed.



Lemma span_outcome_witness :
  let w := world_with tt [] in
  span_text initial_state (py "x = 1 # hello") = Some (py "hello")
  /\ exists t w',
      translate_text latin_isalpha (fixed_backend chinese_reply) me (py "hello")
        (py "comment") w = (Ok t, w')
      /\ exists st',
          scan_line latin_isalpha (fixed_backend chinese_reply) me 0
            (py "x = 1 # hello") initial_state w = (Ok st', w')
          /\ in_docstring st' = false
          /\ translated_lines st'
             = [] ++ rewritten initial_state (py "x = 1 # hello") t.
Proof.
  split; [reflexivity|].
  apply (span_outcome latin_isalpha unit (fixed_backend chinese_reply) me 0
           (py "x = 1 # hello") (py "hello") initial_state
           (world_with tt []) eq_refl).
  - discriminate.
  - intros c Hc. each_char Hc.
Defined.



Lemma backend_failure_keeps_text_witness :
  backend_fails failing_backend me (py "hello") (py "comment") (world_with tt [])
  /\ backend_fails empty_backend me (py "hello") (py "comment") (world_with tt [])
  /\ (exists w', translate_text latin_isalpha failing_backend me (py "hello")
                   (py "comment") (world_with tt []) = (Ok (py "hello"), w')
                 /\ fs w' = fs (world_with tt []))
  /\ (exists w', translate_text latin_isalpha empty_backend me (py "hello")
                   (py "comment") (world_with tt []) = (Ok (py "hello"), w')
                 /\ fs w' = fs (world_with tt [])).
Proof.
  assert (H1 : backend_fails failing_backend me (py "hello") (py "comment")
                 (world_with tt []))
    by (left; eexists; reflexivity).
  assert (H2 : backend_fails empty_backend me (py "hello") (py "comment")
                 (world_with tt []))
    by (right; left; reflexivity).
  split; [exact H1|]. split; [exact H2|]. split.
  - exact (backend_failure_keeps_text latin_isalpha unit failing_backend me
             (py "hello") (py "comment") (world_with tt []) H1).
  - exact (backend_failure_keeps_text latin_isalpha unit empty_backend me
             (py "hello") (py "comment") (world_with tt []) H2).
Defined.

Lemma gate_rejects_without_backend_witness :
  rejected latin_isalpha (py "ab")
  /\ rejected latin_isalpha (py "1234")
  /\ rejected latin_isalpha (py "see " ++ chinese_reply)
  /\ translate_text latin_isalpha (fixed_backend chinese_reply) me
       (py "see " ++ chinese_reply) (py "comment") (world_with tt [])
     = (Ok (py "see " ++ chinese_reply), world_with tt []).
Proof.
  assert (H1 : rejected latin_isalpha (py "ab")) by (left; vm_compute; lia).
  assert (H2 : rejected latin_isalpha (py "1234")).
  { right; left. intros c Hc. each_char Hc. }
  assert (H3 : rejected latin_isalpha (py "see " ++ chinese_reply)).
  { right; right. exists 20013%N. split; [vm_compute; tauto | lia]. }
  split; [exact H1|]. split; [exact H2|]. split; [exact H3|].
  exact (gate_rejects_without_backend latin_isalpha unit
           (fixed_backend chinese_reply) me (py "see " ++ chinese_reply)
           (py "comment") (world_with tt []) H3).
Defined.

Lemma delimiter_flavor_witness :
  let line := triple_squote ++ py "a " ++ triple_dquote in
  exists st' w',
    scan_line latin_isalpha (fixed_backend chinese_reply) me 0 line
      initial_state (world_with tt []) = (Ok st', w')
    /\ in_docstring st' = true
    /\ docstring_delimiter st' = Some triple_dquote
    /\ docstring_lines st' = [line]
    /\ translated_lines st' = [].
Proof.
  exact (delimiter_flavor latin_isalpha unit (fixed_backend chinese_reply) me 0
           (triple_squote ++ py "a " ++ triple_dquote) initial_state
           (world_with tt []) eq_refl eq_refl).
Defined.

Lemma reply_quotes_stripped_witness :
  accepted latin_isalpha (py "hello")
  /\ exists w',
      translate_text latin_isalpha (fixed_backend quoted_reply) me (py "hello")
        (py "comment") (world_with tt []) = (Ok chinese_reply, w').
Proof.
  assert (H : accepted latin_isalpha (py "hello")).
  { split; [vm_compute; lia|]. split.
    - exists 104%N. split; [vm_compute; tauto | reflexivity].
    - intros c Hc. each_char Hc. }
  split; [exact H|].
  exact (proj1 (reply_quotes_stripped latin_isalpha unit
                  (fixed_backend quoted_reply) me (py "hello") (py "comment")
                  quoted_reply [] (world_with tt []) H eq_refl)).
Defined.

End Examples.

(** ** More on the translation step and the pass over a file *)

Section Pass.

Variable isalpha : char -> bool.
Variable B : Type.
Variable chat_completions_create : Client -> Request -> B -> Completion * B.

Local Abbreviation translate :=
  (translate_text isalpha chat_completions_create).
Local Abbreviation scan :=
  (scan_line isalpha chat_completions_create).
Local Abbreviation pass :=
  (translate_content isalpha chat_completions_create).
Local Abbreviation on_file :=
  (translate_file isalpha chat_completions_create).

(** What one call of [translate_text] does to the world: the files stay,
    the output grows, and at most one request is sent, the one built from
    the text and its context. *)
Lemma translate_text_effects (self : CommentTranslator) (text context : str)
      (w : World B) :
  exists t w',
    translate self text context w = (Ok t, w')
    /\ fs w' = fs w
    /\ (exists new, stdout w' = stdout w ++ new)
    /\ (requests w' = requests w
        \/ requests w'
           = requests w ++ [build_request self (build_prompt text context)]).
Proof.
  unfold translate_text.
  destruct (_contains_chinese text).
  { exists text, w. repeat split; [now exists [] ; rewrite app_nil_r | now left]. }
  destruct (_ || _).
  { exists text, w. repeat split; [now exists [] ; rewrite app_nil_r | now left]. }
  unfold try_except, bind, create, print, ret, raise.
  destruct (chat_completions_create _ _ _) as [[msg|choices] b]; cbn.
  - eexists _, _. repeat split; [now eexists | now right].
  - destruct choices as [|[reply|] rest]; cbn; eexists _, _; repeat split;
      try (now right); try (now eexists);
      exists []; now rewrite app_nil_r.
Qed.

(** The state of the loop is well formed when a block being read has its
    delimiter recorded. *)
Lemma keep_line_wf (i : nat) (line : str) (st : ScanState) :
  (in_docstring st = true -> docstring_delimiter st <> None) ->
  in_docstring (keep_line i line st) = true ->
  docstring_delimiter (keep_line i line st) <> None.
Proof.
  intros Hwf. unfold keep_line.
  destruct (in_docstring st) eqn:Hin; cbn [negb].
  - destruct (docstring_delimiter st) as [d|] eqn:Hd; [|now destruct Hwf].
    destruct (contains d (strip line)); cbn; discriminate.
  - destruct (opens_docstring line && negb (single_line line)); cbn.
    + discriminate.
    + rewrite Hin. discriminate.
Qed.

(** One line of the loop, from a well-formed state: it returns, the state
    stays well formed, no file is touched, the output grows and at most
    one request is sent. *)
Lemma scan_line_effects (self : CommentTranslator) (i : nat) (line : str)
      (st : ScanState) (w : World B) :
  (in_docstring st = true -> docstring_delimiter st <> None) ->
  exists st' w',
    scan self i line st w = (Ok st', w')
    /\ (in_docstring st' = true -> docstring_delimiter st' <> None)
    /\ fs w' = fs w
    /\ (exists new, stdout w' = stdout w ++ new)
    /\ List.length (requests w') <= S (List.length (requests w)).
Proof.
  intros Hwf.
  destruct (span_text st line) as [text|] eqn:Hspan.
  - pose proof (scan_line_span isalpha B chat_completions_create self i line
                  text st w Hspan) as H.
    destruct (guard text).
    + destruct H as (t & w' & Ht & st' & Hrun & Hidle & _).
      destruct (translate_text_effects self text (span_context st line) w)
        as (t0 & w0 & Ht0 & Hfs & Hout & Hreq).
      rewrite Ht in Ht0. injection Ht0 as <- <-.
      exists st', w'. split; [exact Hrun|].
      split; [rewrite Hidle; discriminate|]. split; [exact Hfs|].
      split; [exact Hout|].
      destruct Hreq as [-> | ->]; [lia | rewrite length_app; cbn; lia].
    + destruct H as (st' & Hrun & Hidle & _).
      exists st', w. split; [exact Hrun|].
      split; [rewrite Hidle; discriminate|]. split; [reflexivity|].
      split; [exists []; now rewrite app_nil_r | lia].
  - exists (keep_line i line st), w. split.
    + apply scan_line_kept; [exact Hwf|]. unfold span_kept. now rewrite Hspan.
    + split; [now apply keep_line_wf|]. split; [reflexivity|].
      split; [exists []; now rewrite app_nil_r | lia].
Qed.

Lemma scan_lines_effects (self : CommentTranslator) (lines : list str) :
  forall (i : nat) (st : ScanState) (w : World B),
    (in_docstring st = true -> docstring_delimiter st <> None) ->
    exists st' w',
      scan_lines isalpha chat_completions_create self i lines st w
      = (Ok st', w')
      /\ fs w' = fs w
      /\ (exists new, stdout w' = stdout w ++ new)
      /\ List.length (requests w')
         <= List.length (requests w) + List.length lines.
Proof.
  induction lines as [|line rest IH]; intros i st w Hwf; cbn [scan_lines].
  - exists st, w. split; [reflexivity|]. split; [reflexivity|].
    split; [exists []; now rewrite app_nil_r | cbn; lia].
  - destruct (scan_line_effects self i line st w Hwf)
      as (st1 & w1 & Hrun & Hwf1 & Hfs1 & [new1 Hout1] & Hreq1).
    destruct (IH (S i) st1 w1 Hwf1)
      as (st2 & w2 & Hrun2 & Hfs2 & [new2 Hout2] & Hreq2).
    exists st2, w2. unfold bind. rewrite Hrun. split; [exact Hrun2|].
    split; [congruence|]. split.
    + exists (new1 ++ new2). now rewrite Hout2, Hout1, app_assoc.
    + cbn [List.length]. lia.
Qed.

(** X1: the pass over the text of a file always returns a text: the
    exception for a block read without a delimiter cannot happen.  It
    sends at most one request to the backend for each line of the file
    and touches no file. *)
Theorem pass_returns (self : CommentTranslator) (original : str)
        (w : World B) :
  exists translated_content w',
    pass self original w = (Ok translated_content, w')
    /\ fs w' = fs w
    /\ List.length (requests w')
       <= List.length (requests w)
          + List.length (split newline original).
Proof.
  unfold translate_content, bind. cbv zeta.
  destruct (scan_lines_effects self (split newline original) 0 initial_state w)
    as (st' & w' & Hrun & Hfs & _ & Hreq); [discriminate|].
  rewrite Hrun. eexists _, w'. split; [reflexivity|]. now split.
Qed.

(** [translate_content], with all it does to the world. *)
Lemma translate_content_effects (self : CommentTranslator) (original : str)
      (w : World B) :
  exists t w',
    pass self original w = (Ok t, w')
    /\ fs w' = fs w
    /\ exists new, stdout w' = stdout w ++ new.
Proof.
  unfold translate_content, bind. cbv zeta.
  destruct (scan_lines_effects self (split newline original) 0 initial_state w)
    as (st' & w' & Hrun & Hfs & Hout & _); [discriminate|].
  rewrite Hrun. eexists _, w'. split; [reflexivity|]. now split.
Qed.

(** [translate_file], case by case. *)
Lemma translate_file_cases (self : CommentTranslator) (file_path : str)
      (dry_run : bool) (w : World B) :
  exists b w',
    on_file self file_path dry_run w = (Ok b, w')
    /\ (exists new, stdout w' = stdout w ++ new)
    /\ match fs w file_path with
       | None => b = false /\ fs w' = fs w
       | Some f =>
           exists t w1,
             pass self (content f) w = (Ok t, w1)
             /\ b = dry_run || eqb t (content f)
                     || (writable f && negb (existsb is_surrogate t))
             /\ fs w' = if negb dry_run && negb (eqb t (content f))
                           && writable f
                        then fs_write (fs w) file_path
                                      (if existsb is_surrogate t then [] else t)
                        else fs w
       end.
Proof.
  unfold translate_file, try_except, bind, read_file.
  destruct (fs w file_path) as [f|] eqn:Hf.
  - destruct (translate_content_effects self (content f) w)
      as (t & w1 & Hrun & Hfs & [new Hout]).
    rewrite Hrun.
    destruct dry_run; cbn [negb orb andb].
    + destruct (eqb t (content f)); cbn;
        (eexists _, _; split; [reflexivity|]; split;
         [ rewrite Hout, <- ?app_assoc; now eexists
         | exists t, w1; now repeat split ]).
    + destruct (eqb t (content f)) eqn:He; cbn [negb orb andb].
      * cbn. eexists _, _. split; [reflexivity|]. split.
        -- cbn. rewrite Hout, <- app_assoc. now eexists.
        -- exists t, w1. rewrite He. now repeat split.
      * unfold write_file. rewrite Hfs, Hf.
        destruct f as [data [|]]; cbn [writable content andb] in *.
        -- destruct (existsb is_surrogate t) eqn:Hsur; cbn.
           ++ eexists _, _. split; [reflexivity|]. split.
              ** cbn [stdout]. rewrite Hout, <- app_assoc. now eexists.
              ** exists t, w1. rewrite He, Hsur. now repeat split.
           ++ eexists _, _. split; [reflexivity|]. split.
              ** cbn [stdout]. rewrite Hout, <- app_assoc. now eexists.
              ** exists t, w1. rewrite He, Hsur. now repeat split.
        -- cbn. eexists _, _. split; [reflexivity|]. split.
           ++ cbn. rewrite Hout, <- app_assoc. now eexists.
           ++ exists t, w1. rewrite He. now repeat split.
  - cbn. eexists _, _. split; [reflexivity|]. split.
    + cbn. now eexists.
    + now split.
Qed.

(** X2: [translate_file] never lets an exception out, and its result says
    whether the file was handled: [False] when the file cannot be read,
    or when its text changed outside dry-run mode and the write fails,
    because the file cannot be opened for writing or because the text
    holds a surrogate that cannot be encoded; [True] in every other
    case. *)
Theorem translate_file_result (self : CommentTranslator) (file_path : str)
        (dry_run : bool) (w : World B) :
  exists b w',
    on_file self file_path dry_run w = (Ok b, w')
    /\ (fs w file_path = None -> b = false)
    /\ (forall f, fs w file_path = Some f ->
          exists t w1,
            pass self (content f) w = (Ok t, w1)
            /\ (b = false
                <-> dry_run = false /\ t <> content f
                    /\ (writable f = false
                        \/ exists c, In c t /\ is_surrogate c = true))).
Proof.
  destruct (translate_file_cases self file_path dry_run w)
    as (b & w' & Hrun & _ & Hcases).
  exists b, w'. split; [exact Hrun|]. split.
  - intros Hf. rewrite Hf in Hcases. apply Hcases.
  - intros f Hf. rewrite Hf in Hcases.
    destruct Hcases as (t & w1 & Hpass & Hb & _).
    exists t, w1. split; [exact Hpass|]. rewrite Hb.
    rewrite !orb_false_iff, andb_false_iff, negb_false_iff, existsb_exists.
    split.
    + intros [[Hd He] Hw]. repeat split; try assumption.
      intros ->. now rewrite eqb_refl in He.
    + intros (Hd & Hne & Hw). repeat split; try assumption.
      destruct (eqb t (content f)) eqn:He; [|reflexivity].
      apply eqb_eq in He. contradiction.
Qed.

(** X3: [translate_file] touches no file but its own: every other path
    holds after the call what it held before. *)
Theorem translate_file_frame (self : CommentTranslator) (file_path p : str)
        (dry_run : bool) (w : World B) :
  p <> file_path ->
  fs (snd (on_file self file_path dry_run w)) p = fs w p.
Proof.
  intros Hp.
  destruct (translate_file_cases self file_path dry_run w)
    as (b & w' & Hrun & _ & Hcases).
  rewrite Hrun. cbn [snd].
  destruct (fs w file_path) as [f|].
  - destruct Hcases as (t & w1 & _ & _ & ->).
    destruct (_ && _); [|reflexivity].
    unfold fs_write. destruct (eqb p file_path) eqn:He; [|reflexivity].
    apply eqb_eq in He. contradiction.
  - destruct Hcases as [_ ->]. reflexivity.
Qed.

(** X4: dry-run mode spares the file, not the backend: the requests sent
    and the state the backend is left in are those of a real run. *)
Theorem dry_run_same_requests (self : CommentTranslator) (file_path : str)
        (w : World B) :
  requests (snd (on_file self file_path true w))
  = requests (snd (on_file self file_path false w))
  /\ backend (snd (on_file self file_path true w))
     = backend (snd (on_file self file_path false w)).
Proof.
  unfold translate_file, try_except, bind, read_file.
  destruct (fs w file_path) as [f|]; [|now split].
  destruct (translate_content _ _ _ _ _) as [[t|e] w1]; [|now split].
  destruct (negb (eqb t (content f))); cbn; [|now split].
  unfold write_file.
  destruct (fs w1 file_path) as [[data [|]]|]; cbn [writable];
    try destruct (existsb is_surrogate t); cbn; now split.
Qed.

End Pass.

(** ** More on the splitter *)

Lemma dropwhile_split (p : char -> bool) (s : str) :
  exists pre, s = pre ++ dropwhile p s /\ forallb p pre = true.
Proof.
  induction s as [|c s (pre & Hs & Hp)]; [now exists []|].
  cbn [dropwhile]. destruct (p c) eqn:Hc.
  - exists (c :: pre). cbn. rewrite Hc, Hp. split; [now f_equal | reflexivity].
  - now exists [].
Qed.

(** Trimming on the right cuts a run of trimmed characters off the end. *)
Lemma rstrip_by_split (p : char -> bool) (s : str) :
  exists ws, s = rstrip_by p s ++ ws /\ forallb p ws = true.
Proof.
  unfold rstrip_by. destruct (dropwhile_split p (rev s)) as (pre & Hs & Hp).
  exists (rev pre). split; [|now apply forallb_rev_true].
  rewrite <- rev_app_distr, <- Hs. symmetry. apply rev_involutive.
Qed.

Lemma rstrip_by_app_all (p : char -> bool) (s ws : str) :
  forallb p ws = true -> rstrip_by p (s ++ ws) = rstrip_by p s.
Proof.
  intros H. unfold rstrip_by. rewrite rev_app_distr.
  now rewrite dropwhile_all by (now apply forallb_rev_true).
Qed.

Lemma dropwhile_idem (p : char -> bool) (s : str) :
  dropwhile p (dropwhile p s) = dropwhile p s.
Proof.
  induction s as [|c s IH]; [reflexivity|]. cbn [dropwhile].
  destruct (p c) eqn:Hc; [exact IH|]. cbn [dropwhile]. now rewrite Hc.
Qed.

Lemma rstrip_by_idem (p : char -> bool) (s : str) :
  rstrip_by p (rstrip_by p s) = rstrip_by p s.
Proof. unfold rstrip_by. now rewrite rev_involutive, dropwhile_idem. Qed.

Lemma rstrip_by_keeps_head (p : char -> bool) (c : char) (s : str) :
  p c = false -> exists r, rstrip_by p (c :: s) = c :: r.
Proof.
  intros Hc. destruct (rstrip_by_split p (c :: s)) as (ws & Hs & Hws).
  destruct (rstrip_by p (c :: s)) as [|x r].
  - cbn in Hs. subst ws. cbn in Hws. now rewrite Hc in Hws.
  - injection Hs as -> _. now exists r.
Qed.

Lemma isspace_plain (c : char) :
  isspace c = true -> (c =? hash)%N = false /\ is_quote c = false.
Proof.
  intros H. split.
  - destruct (c =? hash)%N eqn:E; [|reflexivity].
    apply N.eqb_eq in E. subst c. discriminate.
  - unfold is_quote. apply orb_false_iff. split.
    + destruct (c =? dquote)%N eqn:E; [|reflexivity].
      apply N.eqb_eq in E. subst c. discriminate.
    + destruct (c =? squote)%N eqn:E; [|reflexivity].
      apply N.eqb_eq in E. subst c. discriminate.
Qed.

(** The splitter is the scan for the boundary, with its two trims. *)
Lemma split_as_scan (line : str) :
  _split_code_comment line = split_both_trimmed line.
Proof.
  unfold _split_code_comment, split_both_trimmed.
  destruct (mem hash line) eqn:Hmem; cbn [negb].
  - apply (split_loop_boundary line line [] false None None None eq_refl eq_refl).
    constructor.
  - now rewrite find_boundary_no_hash.
Qed.

(** Where the scan finds the boundary, the text read so far and the text
    left are the two sides of a [#]. *)
Lemma find_boundary_sides (rest : str) :
  forall (before : str) (prev quote : option char) (b a : str),
    find_boundary before prev quote rest = Some (b, a) ->
    exists mid, b = before ++ mid /\ rest = mid ++ hash :: a.
Proof.
  induction rest as [|c rest IH]; intros before prev quote b a H;
    cbn [find_boundary] in H; [discriminate|].
  assert (Hstep : forall p q,
             find_boundary (before ++ [c]) p q rest = Some (b, a) ->
             exists mid, b = before ++ mid /\ c :: rest = mid ++ hash :: a).
  { intros p q Hq. destruct (IH _ _ _ _ _ Hq) as (mid & -> & ->).
    exists (c :: mid). now rewrite <- app_assoc. }
  destruct quote as [q|].
  - destruct ((c =? q)%N && _); now apply Hstep in H.
  - destruct (c =? hash)%N eqn:Hc.
    + apply N.eqb_eq in Hc. subst c. injection H as <- <-.
      exists []. now rewrite app_nil_r.
    + destruct (is_quote c && _); now apply Hstep in H.
Qed.

Lemma find_boundary_blanks (ws rest : str) :
  forall (before : str) (prev : option char),
    forallb isspace ws = true ->
    find_boundary before prev None (ws ++ hash :: rest)
    = Some (before ++ ws, rest).
Proof.
  induction ws as [|c ws IH]; intros before prev Hws.
  - cbn. now rewrite app_nil_r.
  - cbn [forallb] in Hws. apply andb_true_iff in Hws as [Hc Hws].
    destruct (isspace_plain c Hc) as [Hh Hq].
    cbn [app find_boundary]. rewrite Hh, Hq. cbn [andb].
    rewrite IH by assumption. now rewrite <- app_assoc.
Qed.

(** X5: the two parts the splitter returns.  The code part is a prefix
    of the line, and the comment part neither begins nor ends with a
    blank; when the line has a comment boundary, the code part does not
    end with a blank either. *)
Theorem split_parts (line : str) :
  let (code_part, comment_part) := _split_code_comment line in
  (exists tail, line = code_part ++ tail)
  /\ (forall c t, comment_part = c :: t -> isspace c = false)
  /\ (forall t c, comment_part = t ++ [c] -> isspace c = false)
  /\ (code_part <> line ->
      forall t c, code_part = t ++ [c] -> isspace c = false).
Proof.
  rewrite split_as_scan. unfold split_both_trimmed.
  destruct (find_boundary [] None None line) as [[b a]|] eqn:Hb.
  - destruct (find_boundary_sides line [] None None b a Hb) as (mid & -> & ->).
    cbn [app]. destruct (rstrip_by_split isspace mid) as (ws & Hmid & _).
    split.
    + exists (ws ++ hash :: a). unfold rstrip.
      rewrite app_assoc, <- Hmid. reflexivity.
    + split; [intros c t H; exact (strip_by_hd isspace a c t H)|].
      split; [intros t c H; exact (strip_by_last isspace a t c H)|].
      intros _ t c H. unfold rstrip, rstrip_by in H.
      apply (f_equal (@rev char)) in H.
      rewrite rev_involutive, rev_app_distr in H. cbn in H.
      exact (dropwhile_hd _ _ _ _ H).
  - split; [exists []; now rewrite app_nil_r|].
    split; [discriminate|]. split; [intros [|? ?] ?; discriminate|].
    intros H. contradiction.
Qed.

(** The code part is a prefix of the line. *)
Lemma split_code_prefix (line : str) :
  exists tail, line = fst (_split_code_comment line) ++ tail.
Proof.
  rewrite split_as_scan. unfold split_both_trimmed.
  destruct (find_boundary [] None None line) as [[b a]|] eqn:Hb.
  - destruct (find_boundary_sides line [] None None b a Hb) as (mid & -> & ->).
    cbn [app fst]. destruct (rstrip_by_split isspace mid) as (ws & Hmid & _).
    exists (ws ++ hash :: a). unfold rstrip.
    rewrite app_assoc, <- Hmid. reflexivity.
  - exists []. cbn [fst]. now rewrite app_nil_r.
Qed.

Lemma split_acc_no_newline (s : str) :
  forall cur,
    ~ In newline cur ->
    Forall (fun l => ~ In newline l) (split_acc newline cur s).
Proof.
  induction s as [|c s IH]; intros cur Hcur; cbn [split_acc].
  - constructor; [exact Hcur | constructor].
  - destruct (c =? newline)%N eqn:Hc.
    + constructor; [exact Hcur|]. apply IH. intros [].
    + apply IH. intros H. apply in_app_iff in H as [H | [H | []]].
      * now apply Hcur.
      * subst c. now rewrite N.eqb_refl in Hc.
Qed.

(** No line of a text holds a newline, and a text has at least one
    line. *)
Lemma split_no_newline (s : str) :
  Forall (fun l => ~ In newline l) (split newline s).
Proof. apply split_acc_no_newline. intros []. Qed.

Lemma split_nonempty (s : str) : split newline s <> [].
Proof.
  unfold split. generalize (@nil char). induction s as [|c s IH]; intros cur;
    cbn [split_acc]; [discriminate|].
  destruct (c =? newline)%N; [discriminate | apply IH].
Qed.

Lemma split_acc_piece (p s : str) :
  forall cur,
    ~ In newline p ->
    split_acc newline cur (p ++ s) = split_acc newline (cur ++ p) s.
Proof.
  induction p as [|c p IH]; intros cur Hp.
  - now rewrite app_nil_r.
  - cbn [app split_acc].
    replace (c =? newline)%N with false.
    + rewrite IH by (intros H; apply Hp; now right).
      now rewrite <- app_assoc.
    + symmetry. apply N.eqb_neq. intros ->. apply Hp. now left.
Qed.

Lemma split_acc_join (outs : list str) :
  forall cur o,
    Forall (fun l => ~ In newline l) (o :: outs) ->
    split_acc newline cur (join newline (o :: outs)) = (cur ++ o) :: outs.
Proof.
  induction outs as [|o2 outs IH]; intros cur o Hall;
    inversion Hall as [|? ? Ho Hrest]; subst.
  - cbn [join]. rewrite <- (app_nil_r o) at 1.
    now rewrite split_acc_piece.
  - change (join newline (o :: o2 :: outs))
      with (o ++ newline :: join newline (o2 :: outs)).
    rewrite split_acc_piece by exact Ho. cbn [split_acc].
    rewrite N.eqb_refl. f_equal. apply (IH [] o2 Hrest).
Qed.

(** Strings without a newline are the lines of their join. *)
Lemma split_join (outs : list str) :
  outs <> [] ->
  Forall (fun l => ~ In newline l) outs ->
  split newline (join newline outs) = outs.
Proof.
  destruct outs as [|o outs]; [contradiction|]. intros _ Hall.
  apply (split_acc_join outs [] o Hall).
Qed.

Section Lines.

Variable isalpha : char -> bool.
Variable B : Type.
Variable chat_completions_create : Client -> Request -> B -> Completion * B.

Local Abbreviation translate :=
  (translate_text isalpha chat_completions_create).
Local Abbreviation scan :=
  (scan_line isalpha chat_completions_create).
Local Abbreviation pass :=
  (translate_content isalpha chat_completions_create).

(** X6: a comment that stands alone on its line loses its indentation.
    Whatever blanks come before the [#], the splitter returns an empty
    code part, so a line whose comment goes to translation comes out as
    two spaces, [# ], and what [translate_text] returned. *)
Theorem full_line_comment_indent (self : CommentTranslator) (i : nat)
        (ws rest : str) (st : ScanState) (w : World B) :
  forallb isspace ws = true ->
  in_docstring st = false ->
  guard (strip rest) = true ->
  _split_code_comment (ws ++ hash :: rest) = ([], strip rest)
  /\ exists t st' w',
      translate self (strip rest) (py "comment") w = (Ok t, w')
      /\ scan self i (ws ++ hash :: rest) st w = (Ok st', w')
      /\ translated_lines st' = translated_lines st ++ [py "  # " ++ t].
Proof.
  intros Hws Hin Hg.
  assert (Hsplit : _split_code_comment (ws ++ hash :: rest) = ([], strip rest)).
  { rewrite split_as_scan. unfold split_both_trimmed.
    rewrite find_boundary_blanks by assumption. cbn [app].
    unfold rstrip. rewrite <- (app_nil_l ws), rstrip_by_app_all by assumption.
    reflexivity. }
  split; [exact Hsplit|].
  assert (Hopen : opens_docstring (ws ++ hash :: rest) = false).
  { unfold opens_docstring, strip, strip_by, lstrip_by.
    rewrite dropwhile_all by assumption.
    rewrite dropwhile_stop by reflexivity.
    destruct (rstrip_by_keeps_head isspace hash rest eq_refl) as [r ->].
    reflexivity. }
  assert (Hmem : mem hash (ws ++ hash :: rest) = true).
  { apply mem_In, in_or_app. right. now left. }
  assert (Hspan : span_text st (ws ++ hash :: rest) = Some (strip rest)).
  { unfold span_text. now rewrite Hin, Hopen, Hmem, Hsplit. }
  pose proof (scan_line_span isalpha B chat_completions_create self i _ _ st w
                Hspan) as H.
  rewrite Hg in H. destruct H as (t & w' & Ht & st' & Hrun & _ & Hout).
  exists t, st', w'. unfold span_context in Ht. rewrite Hin, Hopen in Ht.
  split; [exact Ht|]. split; [exact Hrun|].
  rewrite Hout. unfold rewritten. now rewrite Hin, Hopen, Hsplit.
Qed.

(** One line outside a block that does not open a docstring gives one
    string of output. *)
Lemma scan_plain_line (self : CommentTranslator) (i : nat) (line : str)
      (st : ScanState) (w : World B) :
  in_docstring st = false ->
  opens_docstring line = false ->
  ~ In newline line ->
  exists out st' w',
    scan self i line st w = (Ok st', w')
    /\ in_docstring st' = false
    /\ translated_lines st' = translated_lines st ++ [out]
    /\ (mem hash line = false -> out = line)
    /\ (out = line
        \/ exists t, out = fst (_split_code_comment line) ++ py "  # " ++ t
                     /\ (In newline out <-> In newline t)).
Proof.
  intros Hin Hopen Hnl.
  destruct (mem hash line) eqn:Hmem.
  - assert (Hspan : span_text st line = Some (snd (_split_code_comment line))).
    { unfold span_text. now rewrite Hin, Hopen, Hmem. }
    pose proof (scan_line_span isalpha B chat_completions_create self i _ _
                  st w Hspan) as H.
    destruct (guard _).
    + destruct H as (t & w' & _ & st' & Hrun & Hidle & Hout).
      unfold rewritten in Hout. rewrite Hin, Hopen in Hout. cbn [negb] in Hout.
      eexists _, st', w'. split; [exact Hrun|]. split; [exact Hidle|].
      split; [exact Hout|]. split; [discriminate|]. right. exists t.
      split; [reflexivity|].
      destruct (split_code_prefix line) as [tail Htail].
      rewrite !in_app_iff. split; [|tauto].
      intros [Hcode | [Hsep | Ht]]; [| |exact Ht].
      * exfalso. apply Hnl. rewrite Htail. apply in_or_app. now left.
      * exfalso. cbn in Hsep. intuition discriminate.
    + destruct H as (st' & Hrun & Hidle & Hout).
      unfold pending in Hout. rewrite Hin in Hout.
      exists line, st', w. split; [exact Hrun|]. split; [exact Hidle|].
      split; [exact Hout|]. split; [reflexivity | now left].
  - exists line, (keep_line i line st), w. split.
    + apply scan_line_kept; [rewrite Hin; discriminate|].
      unfold span_kept, span_text. now rewrite Hin, Hopen, Hmem.
    + unfold keep_line. rewrite Hin, Hopen. cbn.
      split; [exact Hin|]. split; [reflexivity|]. split; [reflexivity | now left].
Qed.

Lemma scan_plain_lines (self : CommentTranslator) (lines : list str) :
  forall (i : nat) (st : ScanState) (w : World B),
    in_docstring st = false ->
    Forall (fun line => opens_docstring line = false) lines ->
    Forall (fun line => ~ In newline line) lines ->
    exists outs st' w',
      scan_lines isalpha chat_completions_create self i lines st w
      = (Ok st', w')
      /\ translated_lines st' = translated_lines st ++ outs
      /\ Forall2 (fun line out =>
                    (mem hash line = false -> out = line)
                    /\ (out = line
                        \/ exists t, out = fst (_split_code_comment line)
                                           ++ py "  # " ++ t
                                     /\ (In newline out <-> In newline t)))
                 lines outs.
Proof.
  induction lines as [|line rest IH]; intros i st w Hin Hall Hnl;
    cbn [scan_lines].
  - exists [], st, w. split; [reflexivity|]. split; [now rewrite app_nil_r|].
    constructor.
  - inversion Hall as [|? ? Hline Hrest]; subst.
    inversion Hnl as [|? ? Hnl1 Hnlrest]; subst.
    destruct (scan_plain_line self i line st w Hin Hline Hnl1)
      as (out & st1 & w1 & Hrun & Hin1 & Hout1 & Hsame & Hform).
    destruct (IH (S i) st1 w1 Hin1 Hrest Hnlrest)
      as (outs & st2 & w2 & Hrun2 & Hout2 & Hall2).
    exists (out :: outs), st2, w2. unfold bind. rewrite Hrun.
    split; [exact Hrun2|]. split.
    + rewrite Hout2, Hout1, <- app_assoc. reflexivity.
    + constructor; [now split | exact Hall2].
Qed.

(** X7: in a file where no line starts with a triple quote, the pass
    works line by line.  Its output is one string for each line of the
    input, joined by newlines: a line without [#] is given back as it is,
    and any other line is either given back as it is or is its own code
    part, two spaces, [# ] and a comment text, and then holds a newline
    exactly when that text does.  When no string holds a newline, the
    lines of the output are these strings, as many as the input has. *)
Theorem plain_file_line_by_line (self : CommentTranslator) (original : str)
        (w : World B) :
  Forall (fun line => opens_docstring line = false) (split newline original) ->
  exists outs w',
    pass self original w = (Ok (join newline outs), w')
    /\ List.length outs = List.length (split newline original)
    /\ Forall2 (fun line out =>
                  (mem hash line = false -> out = line)
                  /\ (out = line
                      \/ exists t, out = fst (_split_code_comment line)
                                         ++ py "  # " ++ t
                                   /\ (In newline out <-> In newline t)))
               (split newline original) outs
    /\ (Forall (fun out => ~ In newline out) outs ->
        split newline (join newline outs) = outs).
Proof.
  intros Hall. unfold translate_content, bind. cbv zeta.
  destruct (scan_plain_lines self _ 0 initial_state w eq_refl Hall
              (split_no_newline original))
    as (outs & st' & w' & -> & Hout & Hall2).
  cbn in Hout. exists outs, w'. rewrite Hout.
  split; [reflexivity|].
  assert (Hlen : List.length outs = List.length (split newline original))
    by (symmetry; eapply Forall2_length; exact Hall2).
  split; [exact Hlen|]. split; [exact Hall2|].
  intros Hnl. apply split_join; [|exact Hnl].
  intros ->. cbn in Hlen. pose proof (split_nonempty original). 
  destruct (split newline original); [contradiction | discriminate].
Qed.

End Lines.

(** ** The files found and the run over them *)

Lemma Dir_nested_ind (P : Dir -> Prop) :
  (forall subdirs files,
      Forall (fun d => P (snd d)) subdirs -> P (MkDir subdirs files)) ->
  forall t, P t.
Proof.
  intros H. fix IH 1. intros [subdirs files]. apply H.
  induction subdirs as [|[name sub] rest IHrest]; constructor;
    [apply IH | exact IHrest].
Qed.

Lemma endswith_app (a f suffix : str) :
  endswith f suffix = true -> endswith (a ++ f) suffix = true.
Proof.
  unfold endswith. intros H. apply andb_true_iff in H as [Hlen Heq].
  apply Nat.leb_le in Hlen. apply andb_true_iff. split.
  - apply Nat.leb_le. rewrite length_app. lia.
  - rewrite skipn_app, length_app.
    rewrite (skipn_all2 a) by lia. cbn [app].
    replace (List.length a + List.length f - List.length suffix
             - List.length a)
      with (List.length f - List.length suffix) by lia.
    exact Heq.
Qed.

Lemma path_join_endswith (a f suffix : str) :
  endswith f suffix = true -> endswith (path_join a f) suffix = true.
Proof.
  intros H. unfold path_join.
  destruct (startswith f [slash]); [exact H|].
  destruct (_ || _); [now apply endswith_app|].
  change (a ++ slash :: f) with (a ++ [slash] ++ f).
  rewrite app_assoc. now apply endswith_app.
Qed.

Lemma walk_listed (keep : str -> bool) (p : str) (t : Dir) :
  forall top,
    In p (flat_map python_files_of (os_walk keep top t))
    <-> listed keep top t p.
Proof.
  induction t as [subdirs files IH] using Dir_nested_ind. intros top.
  cbn [os_walk flat_map]. rewrite in_app_iff. split.
  - intros [Hhere | Hbelow].
    + cbn [python_files_of] in Hhere. apply in_map_iff in Hhere as (f & <- & Hf).
      apply filter_In in Hf as [Hf Hpy]. now constructor.
    + apply in_flat_map in Hbelow as (triple & Htriple & Hp).
      apply in_flat_map in Htriple as ([name sub] & Hd & Hin).
      destruct (keep name) eqn:Hk; [|destruct Hin].
      rewrite Forall_forall in IH. specialize (IH _ Hd (path_join top name)).
      cbn [snd] in IH.
      apply (listed_below keep top subdirs files name sub p Hd Hk).
      apply IH. apply in_flat_map. now exists triple.
  - intros H. inversion H as [? ? ? f Hf Hpy | ? ? ? name sub ? Hd Hk Hsub]; subst.
    + left. cbn [python_files_of]. apply in_map_iff. exists f.
      split; [reflexivity|]. now apply filter_In.
    + right. rewrite Forall_forall in IH.
      specialize (IH _ Hd (path_join top name)). cbn [snd] in IH.
      apply IH in Hsub. apply in_flat_map in Hsub as (triple & Htriple & Hp).
      apply in_flat_map. exists triple. split; [|exact Hp].
      apply in_flat_map. exists (name, sub). split; [exact Hd|].
      now rewrite Hk.
Qed.

Lemma listed_endswith (keep : str -> bool) (top : str) (t : Dir) (p : str) :
  listed keep top t p -> endswith p (py ".py") = true.
Proof.
  induction 1 as [top subdirs files f Hf Hpy | ]; [|assumption].
  now apply path_join_endswith.
Qed.

(** X8: what [find_python_files] returns.  A path is returned exactly
    when it is a file ending in [.py] that lies in the directory given or
    below it through directories none of which is excluded; the directory
    given is itself never tested against the excluded names, and a path
    that is no directory gives no file. *)
Theorem find_python_files_spec (disk : str -> option Dir) (directory : str)
        (exclude_dirs : option (list str)) (p : str) :
  In p (find_python_files disk directory exclude_dirs)
  <-> exists t,
      disk directory = Some t
      /\ listed (fun d => negb (in_list d match exclude_dirs with
                                          | None => default_exclude_dirs
                                          | Some l => l
                                          end))
                directory t p.
Proof.
  unfold find_python_files. cbv zeta.
  destruct (disk directory) as [t|].
  - rewrite walk_listed. split.
    + intros H. now exists t.
    + intros (t' & [= <-] & H). exact H.
  - split; [intros [] | intros (t & Ht & _); discriminate].
Qed.

(** X9: every path [find_python_files] returns ends in [.py]. *)
Theorem find_python_files_suffix (disk : str -> option Dir) (directory : str)
        (exclude_dirs : option (list str)) :
  Forall (fun p => endswith p (py ".py") = true)
         (find_python_files disk directory exclude_dirs).
Proof.
  apply Forall_forall. intros p Hp. unfold find_python_files in Hp.
  cbv zeta in Hp. destruct (disk directory) as [t|]; [|destruct Hp].
  apply walk_listed in Hp. eapply listed_endswith. exact Hp.
Qed.

Section Run.

Variable isalpha : char -> bool.
Variable B : Type.
Variable chat_completions_create : Client -> Request -> B -> Completion * B.
Variable disk : str -> option Dir.
Variable parse_args : list str -> Parsed.
Variable OpenAI : str -> str -> result Client.

Local Abbreviation run_main :=
  (main isalpha chat_completions_create disk parse_args OpenAI).

(** A file that cannot be read. *)
Local Abbreviation unreadable w :=
  (fun p : str => match fs w p with None => true | Some _ => false end).

(** The loop of [main] over the files: it ends, every file is counted
    once, and the files are touched as [translate_file] touches them. *)
Lemma main_loop_runs (translator : CommentTranslator) (dry_run : bool)
      (n : nat) (python_files : list str) :
  forall (i success_count fail_count : nat) (s : Session B),
  exists success fail s',
    main_loop isalpha chat_completions_create translator dry_run n i
              python_files success_count fail_count s
    = (Ok (success, fail), s')
    /\ success + fail
       = success_count + fail_count + List.length python_files
    /\ (exists new, console s' = console s ++ new)
    /\ (forall p, ~ In p python_files -> fs (world s') p = fs (world s) p)
    /\ (dry_run = true ->
        fs (world s') = fs (world s)
        /\ fail = fail_count
                  + List.length (filter (unreadable (world s)) python_files)).
Proof.
  induction python_files as [|file_path rest IH];
    intros i success_count fail_count s; cbn [main_loop].
  - exists success_count, fail_count, s. split; [reflexivity|].
    split; [cbn; lia|]. split; [exists []; now rewrite app_nil_r|].
    split; [reflexivity|]. intros _. split; [reflexivity | cbn; lia].
  - unfold call_translate_file. cbn [world say].
    destruct (translate_file_cases isalpha B chat_completions_create translator
                file_path dry_run (world s))
      as (b & w' & Hrun & _ & Hcases).
    rewrite Hrun.
    assert (Hframe : forall p, p <> file_path -> fs w' p = fs (world s) p).
    { intros p Hp. destruct (fs (world s) file_path) as [f|].
      - destruct Hcases as (t & w1 & _ & _ & ->).
        destruct (_ && _); [|reflexivity].
        unfold fs_write. destruct (eqb p file_path) eqn:He; [|reflexivity].
        apply eqb_eq in He. contradiction.
      - destruct Hcases as [_ ->]. reflexivity. }
    assert (Hdry : dry_run = true ->
                   fs w' = fs (world s)
                   /\ b = negb (unreadable (world s) file_path)).
    { intros ->. destruct (fs (world s) file_path) as [f|].
      - destruct Hcases as (t & w1 & _ & -> & ->). now split.
      - destruct Hcases as [-> ->]. now split. }
    set (s1 := {| world := w'; console := _ |}).
    destruct b.
    + destruct (IH (S i) (S success_count) fail_count s1)
        as (sc & fc & s' & Hloop & Hsum & [new Hout] & Hfr & Hd).
      exists sc, fc, s'. split; [exact Hloop|]. split; [cbn; lia|]. split.
      * rewrite Hout. unfold s1. cbn [console say]. rewrite <- !app_assoc.
        now eexists.
      * split.
        -- intros p Hp. rewrite Hfr by (intros Hin; apply Hp; now right).
           apply Hframe. intros ->. apply Hp. now left.
        -- intros Hdr. destruct (Hdry Hdr) as [Hfs Hb].
           destruct (Hd Hdr) as [Hfs' Hfc]. cbn [world s1] in Hfs', Hfc.
           split; [congruence|]. rewrite Hfc, Hfs. cbn [filter].
           symmetry in Hb. apply negb_true_iff in Hb. now rewrite Hb.
    + destruct (IH (S i) success_count (S fail_count) s1)
        as (sc & fc & s' & Hloop & Hsum & [new Hout] & Hfr & Hd).
      exists sc, fc, s'. split; [exact Hloop|]. split; [cbn; lia|]. split.
      * rewrite Hout. unfold s1. cbn [console say]. rewrite <- !app_assoc.
        now eexists.
      * split.
        -- intros p Hp. rewrite Hfr by (intros Hin; apply Hp; now right).
           apply Hframe. intros ->. apply Hp. now left.
        -- intros Hdr. destruct (Hdry Hdr) as [Hfs Hb].
           destruct (Hd Hdr) as [Hfs' Hfc]. cbn [world s1] in Hfs', Hfc.
           split; [congruence|]. rewrite Hfc, Hfs. cbn [filter].
           symmetry in Hb. apply negb_false_iff in Hb. rewrite Hb.
           cbn [List.length]. lia.
Qed.

(** X10: how [main] ends.  It ends as the argument parser ends it when
    the parser does not return; it exits with status 1 when the directory
    does not exist and with status 0 when no Python file is found; an
    exception raised by the constructor of the client leaves it
    uncaught; otherwise it returns: no exception comes out of the loop
    over the files.  Whenever it does not return, the world is as it
    was. *)
Theorem main_outcome (argv : list str) (w : World B) :
  fst (run_main argv w)
  = match parse_args argv with
    | ParserExit code _ => Exited code
    | ParsedArgs args =>
        match disk (directory args) with
        | None => Exited 1
        | Some _ =>
            match find_python_files disk (directory args)
                                    (Some (exclude args)) with
            | [] => Exited 0
            | _ :: _ =>
                match OpenAI (args_base_url args) (apikey args) with
                | Raise e => Uncaught e
                | Ok _ => Returned
                end
            end
        end
    end
  /\ (fst (run_main argv w) <> Returned -> world (snd (run_main argv w)) = w).
Proof.
  unfold main. cbv zeta.
  destruct (parse_args argv) as [args | code printed]; [|split; reflexivity].
  destruct (disk (directory args)) as [t|]; [|split; reflexivity].
  destruct (find_python_files disk (directory args) (Some (exclude args)))
    as [|file_path rest] eqn:Hfiles; [split; reflexivity|].
  cbn [List.length Nat.eqb]. unfold __init__.
  destruct (OpenAI (args_base_url args) (apikey args)) as [c | e].
  - match goal with
    | |- context [main_loop _ _ ?tr ?dr ?n ?i ?fl ?sc ?fc ?s] =>
        destruct (main_loop_runs tr dr n fl i sc fc s)
          as (success & fail & s' & -> & _)
    end.
    split; [reflexivity|]. intros H. now destruct H.
  - split; [reflexivity|]. intros _. cbn [snd].
    now destruct (dry_run args).
Qed.

(** X11: when the arguments are parsed, files are found and the client
    is built, [main] ends its output with the tally, and the two counts
    of the tally add up to the number of files found. *)
Theorem main_tally (argv : list str) (w : World B) (args : Args) (t : Dir)
        (c : Client) :
  parse_args argv = ParsedArgs args ->
  disk (directory args) = Some t ->
  find_python_files disk (directory args) (Some (exclude args)) <> [] ->
  OpenAI (args_base_url args) (apikey args) = Ok c ->
  exists success_count fail_count head,
    console (snd (run_main argv w))
    = head ++ map FromMain [MainRule true; MainDone;
                            MainSuccess success_count;
                            MainFail fail_count; MainRule false]
    /\ success_count + fail_count
       = List.length
           (find_python_files disk (directory args) (Some (exclude args))).
Proof.
  intros Hargs Hdir Hfiles Hclient. unfold main. cbv zeta.
  rewrite Hargs, Hdir.
  destruct (find_python_files disk (directory args) (Some (exclude args)))
    as [|file_path rest]; [contradiction|].
  cbn [List.length Nat.eqb]. unfold __init__. rewrite Hclient.
  match goal with
  | |- context [main_loop _ _ ?tr ?dr ?n ?i ?fl ?sc ?fc ?s] =>
      destruct (main_loop_runs tr dr n fl i sc fc s)
        as (success & fail & s' & -> & Hsum & _)
  end.
  exists success, fail, (console s'). split.
  - cbn. rewrite <- !app_assoc. reflexivity.
  - cbn in Hsum. cbn. lia.
Qed.

(** X12: a dry run of [main] leaves every file as it was; and when files
    are found and the client is built, the files its tally counts as
    failed are exactly those it could not read. *)
Theorem main_dry_run (argv : list str) (w : World B) (args : Args) :
  parse_args argv = ParsedArgs args ->
  dry_run args = true ->
  fs (world (snd (run_main argv w))) = fs w
  /\ (forall t c,
         disk (directory args) = Some t ->
         find_python_files disk (directory args) (Some (exclude args)) <> [] ->
         OpenAI (args_base_url args) (apikey args) = Ok c ->
         exists success_count head,
           console (snd (run_main argv w))
           = head
             ++ map FromMain
                  [MainRule true; MainDone; MainSuccess success_count;
                   MainFail
                     (List.length
                        (filter (unreadable w)
                           (find_python_files disk (directory args)
                              (Some (exclude args)))));
                   MainRule false]).
Proof.
  intros Hargs Hdry. unfold main. cbv zeta. rewrite Hargs.
  destruct (disk (directory args)) as [t|].
  2:{ split; [reflexivity|]. intros t c Ht. discriminate. }
  destruct (find_python_files disk (directory args) (Some (exclude args)))
    as [|file_path rest] eqn:Hfiles.
  { split; [reflexivity|]. intros t' c _ H. contradiction. }
  cbn [List.length Nat.eqb]. rewrite Hdry. unfold __init__.
  destruct (OpenAI (args_base_url args) (apikey args)) as [c | e].
  2:{ split; [reflexivity|]. intros t' c _ _ H. discriminate. }
  match goal with
  | |- context [main_loop _ _ ?tr ?dr ?n ?i ?fl ?sc ?fc ?s] =>
      destruct (main_loop_runs tr dr n fl i sc fc s)
        as (success & fail & s' & Hloop & _ & _ & _ & Hd)
  end.
  rewrite Hloop. destruct (Hd eq_refl) as [Hfs Hfail].
  cbn [say world console] in Hfs, Hfail. split; [exact Hfs|].
  intros t' c' _ _ _. exists success, (console s').
  rewrite Hfail. cbn. rewrite <- !app_assoc. reflexivity.
Qed.

(** X13: [main] touches only the files it found: a path that
    [find_python_files] does not return holds after the run what it held
    before; and nothing is touched when the arguments are not parsed. *)
Theorem main_frame (argv : list str) (w : World B) (p : str) :
  (forall args,
      parse_args argv = ParsedArgs args ->
      ~ In p (find_python_files disk (directory args) (Some (exclude args)))) ->
  fs (world (snd (run_main argv w))) p = fs w p.
Proof.
  intros Hp. unfold main. cbv zeta.
  destruct (parse_args argv) as [args | code printed]; [|reflexivity].
  specialize (Hp args eq_refl).
  destruct (disk (directory args)) as [t|]; [|reflexivity].
  destruct (find_python_files disk (directory args) (Some (exclude args)))
    as [|file_path rest] eqn:Hfiles; [reflexivity|].
  cbn [List.length Nat.eqb]. unfold __init__.
  destruct (OpenAI (args_base_url args) (apikey args)) as [c | e].
  - match goal with
    | |- context [main_loop _ _ ?tr ?dr ?n ?i ?fl ?sc ?fc ?s] =>
        destruct (main_loop_runs tr dr n fl i sc fc s)
          as (success & fail & s' & -> & _ & _ & Hfr & _)
    end.
    cbn [snd say world]. rewrite (Hfr p Hp).
    now destruct (dry_run args).
  - cbn [snd]. now destruct (dry_run args).
Qed.

End Run.

(** ** The splitter on the lines the pass writes *)

Lemma dropwhile_app (p : char -> bool) (a b : str) :
  dropwhile p (a ++ b)
  = match dropwhile p a with
    | [] => dropwhile p b
    | c :: r => (c :: r) ++ b
    end.
Proof.
  induction a as [|x a IH]; [reflexivity|]. cbn [app dropwhile].
  destruct (p x); [exact IH | reflexivity].
Qed.

Lemma rstrip_by_cons (p : char -> bool) (c : char) (s : str) :
  rstrip_by p (c :: s)
  = match rstrip_by p s with
    | [] => if p c then [] else [c]
    | x :: r => c :: x :: r
    end.
Proof.
  unfold rstrip_by. cbn [rev]. rewrite dropwhile_app.
  destruct (dropwhile p (rev s)) as [|y r] eqn:E.
  - cbn. now destruct (p c).
  - rewrite rev_app_distr. cbn [rev app].
    destruct (rev r ++ [y]) as [|x r'] eqn:E'; [now destruct (rev r)|].
    reflexivity.
Qed.

(** Trimming on the right keeps everything up to a character that is not
    trimmed. *)
Lemma rstrip_by_through (p : char -> bool) (x : str) (c : char) (y : str) :
  p c = false -> exists r, rstrip_by p (x ++ c :: y) = x ++ c :: r.
Proof.
  intros Hc. induction x as [|c0 x [r IH]].
  - now apply rstrip_by_keeps_head.
  - cbn [app]. rewrite rstrip_by_cons, IH.
    destruct (x ++ c :: r) as [|a l] eqn:E; [now destruct x|].
    exists r. now rewrite E.
Qed.

Lemma In_dropwhile (p : char -> bool) (c : char) (s : str) :
  In c s -> p c = false -> In c (dropwhile p s).
Proof.
  intros Hin Hc. induction s as [|x s IH]; [destruct Hin|].
  cbn [dropwhile]. destruct (p x) eqn:Hx; [|exact Hin].
  destruct Hin as [-> | Hin]; [congruence | now apply IH].
Qed.

Lemma In_strip_by (p : char -> bool) (c : char) (s : str) :
  In c s -> p c = false -> In c (strip_by p s).
Proof.
  intros Hin Hc. unfold strip_by, rstrip_by, lstrip_by.
  apply in_rev. rewrite rev_involutive.
  apply In_dropwhile; [|exact Hc]. apply in_rev. rewrite rev_involutive.
  now apply In_dropwhile.
Qed.

Lemma contains_chinese_strip (t : str) :
  _contains_chinese t = true -> _contains_chinese (strip t) = true.
Proof.
  intros H. apply contains_chinese_spec in H as (c & Hin & Hc).
  apply contains_chinese_spec. exists c. split; [|exact Hc].
  apply In_strip_by; [exact Hin|].
  unfold isspace.
  repeat match goal with
         | |- (_ || _) = false => apply orb_false_iff; split
         | |- (_ && _) = false => apply andb_false_iff
         end;
    try (left; apply N.leb_gt; lia);
    try (right; apply N.leb_gt; lia);
    try (apply N.eqb_neq; lia).
Qed.

Lemma scan_state_app (a b : str) :
  forall prev quote,
    scan_state prev quote (a ++ b)
    = match scan_state prev quote a with
      | Some (p, q) => scan_state p q b
      | None => None
      end.
Proof.
  induction a as [|c a IH]; intros prev quote; [reflexivity|].
  cbn [app scan_state].
  destruct quote as [q|].
  - destruct ((c =? q)%N && _); apply IH.
  - destruct (c =? hash)%N; [reflexivity|].
    destruct (is_quote c && _); apply IH.
Qed.

Lemma scan_state_quote (a : str) :
  forall prev quote p q,
    (forall x, quote = Some x -> is_quote x = true) ->
    scan_state prev quote a = Some (p, Some q) ->
    is_quote q = true.
Proof.
  induction a as [|c a IH]; intros prev quote p q Hq H; cbn [scan_state] in H.
  - injection H as _ ->. now apply Hq.
  - destruct quote as [x|].
    + destruct ((c =? x)%N && _); eapply IH; try exact H;
        [discriminate | exact Hq].
    + destruct (c =? hash)%N; [discriminate|].
      destruct (is_quote c && negb (opt_char_eqb backslash prev)) eqn:Hc;
        eapply IH; try exact H; [|discriminate].
      intros x [= <-]. now apply andb_true_iff in Hc as [Hc _].
Qed.

Lemma scan_state_blanks (ws : str) :
  forall prev quote,
    forallb isspace ws = true ->
    (forall x, quote = Some x -> is_quote x = true) ->
    exists p, scan_state prev quote ws = Some (p, quote).
Proof.
  induction ws as [|c ws IH]; intros prev quote Hws Hq; [now eexists|].
  cbn [forallb] in Hws. apply andb_true_iff in Hws as [Hc Hws].
  destruct (isspace_plain c Hc) as [Hh Hnq].
  cbn [scan_state]. destruct quote as [x|].
  - assert (Hx : (c =? x)%N = false).
    { destruct (c =? x)%N eqn:E; [|reflexivity].
      apply N.eqb_eq in E. subst x. rewrite (Hq c eq_refl) in Hnq.
      discriminate. }
    rewrite Hx. cbn [andb]. now apply IH.
  - rewrite Hh, Hnq. cbn [andb]. now apply IH.
Qed.

Lemma find_boundary_app (a b : str) :
  forall before prev quote p q,
    scan_state prev quote a = Some (p, q) ->
    find_boundary before prev quote (a ++ b)
    = find_boundary (before ++ a) p q b.
Proof.
  induction a as [|c a IH]; intros before prev quote p q H;
    cbn [scan_state] in H.
  - injection H as -> ->. now rewrite app_nil_r.
  - cbn [app find_boundary].
    replace (before ++ c :: a) with ((before ++ [c]) ++ a)
      by (now rewrite <- app_assoc).
    destruct quote as [x|].
    + destruct ((c =? x)%N && _); now apply IH.
    + destruct (c =? hash)%N; [discriminate|].
      destruct (is_quote c && _); now apply IH.
Qed.

Lemma find_boundary_state (rest : str) :
  forall before prev quote b a,
    find_boundary before prev quote rest = Some (b, a) ->
    exists mid p,
      b = before ++ mid /\ rest = mid ++ hash :: a
      /\ scan_state prev quote mid = Some (p, None).
Proof.
  induction rest as [|c rest IH]; intros before prev quote b a H;
    cbn [find_boundary] in H; [discriminate|].
  assert (Hstep : forall p q,
             find_boundary (before ++ [c]) p q rest = Some (b, a) ->
             exists mid p',
               b = before ++ c :: mid /\ c :: rest = (c :: mid) ++ hash :: a
               /\ scan_state p q mid = Some (p', None)).
  { intros p q Hq. destruct (IH _ _ _ _ _ Hq) as (mid & p' & -> & -> & Hs).
    exists mid, p'. now rewrite <- app_assoc. }
  destruct quote as [q|].
  - destruct ((c =? q)%N && negb (opt_char_eqb backslash prev)) eqn:Hc;
      apply Hstep in H as (mid & p' & -> & Hr & Hs);
      exists (c :: mid), p'; cbn [scan_state]; rewrite Hc; now repeat split.
  - destruct (c =? hash)%N eqn:Hc.
    + apply N.eqb_eq in Hc. subst c. injection H as <- <-.
      exists [], prev. now rewrite app_nil_r.
    + destruct (is_quote c && negb (opt_char_eqb backslash prev)) eqn:Hq;
        apply Hstep in H as (mid & p' & -> & Hr & Hs);
        exists (c :: mid), p'; cbn [scan_state]; rewrite Hc, Hq;
        now repeat split.
Qed.

(** A line with a comment, as the scan cuts it: the code part, blanks,
    the [#] and the rest; the scan of the code part ends outside any
    quoted literal. *)
Lemma split_with_comment (line : str) :
  snd (_split_code_comment line) <> [] ->
  exists ws a p,
    line = fst (_split_code_comment line) ++ ws ++ hash :: a
    /\ forallb isspace ws = true
    /\ rstrip (fst (_split_code_comment line)) = fst (_split_code_comment line)
    /\ scan_state None None (fst (_split_code_comment line)) = Some (p, None).
Proof.
  rewrite split_as_scan. unfold split_both_trimmed.
  destruct (find_boundary [] None None line) as [[b a]|] eqn:Hb;
    [|intros H; now destruct H].
  intros _. cbn [fst].
  destruct (find_boundary_state line [] None None b a Hb)
    as (mid & p & -> & -> & Hs).
  cbn [app] in *.
  destruct (rstrip_by_split isspace mid) as (ws & Hmid & Hws).
  fold (rstrip mid) in Hmid.
  rewrite Hmid in Hs. rewrite scan_state_app in Hs.
  destruct (scan_state None None (rstrip mid)) as [[p1 q1]|] eqn:H1;
    [|discriminate].
  assert (Hq1 : forall x, q1 = Some x -> is_quote x = true).
  { intros x ->. eapply scan_state_quote; [|exact H1]. discriminate. }
  destruct (scan_state_blanks ws p1 q1 Hws Hq1) as [p2 H2].
  rewrite H2 in Hs. injection Hs as _ ->.
  exists ws, a, p1. split; [|split; [exact Hws|split; [|reflexivity]]].
  - rewrite app_assoc, <- Hmid. reflexivity.
  - apply rstrip_by_idem.
Qed.

(** Splitting a rebuilt line. *)
Lemma split_rebuilt_line_aux (line t : str) :
  snd (_split_code_comment line) <> [] ->
  _split_code_comment (fst (_split_code_comment line) ++ py "  # " ++ t)
  = (fst (_split_code_comment line), strip t).
Proof.
  intros Hc. destruct (split_with_comment line Hc) as (ws & a & p & _ & _ & Hr & Hs).
  rewrite (split_as_scan (_ ++ _)). unfold split_both_trimmed.
  change (py "  # " ++ t) with (space :: space :: hash :: space :: t).
  rewrite (find_boundary_app _ _ [] None None p None Hs).
  cbn [find_boundary].
  change (space =? hash)%N with false. change (is_quote space) with false.
  change (hash =? hash)%N with true. cbn [andb app]. f_equal.
  unfold rstrip in *. rewrite !rstrip_by_app_all by reflexivity. exact Hr.
Qed.

Lemma startswith_app (u v prefix : str) :
  startswith u prefix = true -> startswith (u ++ v) prefix = true.
Proof.
  revert u. induction prefix as [|x prefix IH]; intros u H.
  - apply startswith_nil.
  - destruct u as [|c u]; [discriminate|]. cbn [app startswith] in *.
    apply andb_true_iff in H as [-> H]. now apply IH.
Qed.

Lemma startswith_triple_cut (u z : str) (x q : char) :
  (x =? q)%N = false ->
  startswith (u ++ x :: z) [q; q; q] = true ->
  startswith u [q; q; q] = true.
Proof.
  intros Hx H.
  destruct u as [|c1 [|c2 [|c3 u]]]; cbn [app startswith] in *.
  - now rewrite Hx in H.
  - rewrite Hx, andb_false_r in H. discriminate.
  - rewrite Hx in H. cbn [andb] in H. rewrite !andb_false_r in H. discriminate.
  - rewrite startswith_nil in *. exact H.
Qed.

(** The line rebuilt from a line that opens no docstring opens none. *)
Lemma rebuilt_opens_no_docstring (line t : str) :
  snd (_split_code_comment line) <> [] ->
  opens_docstring line = false ->
  opens_docstring (fst (_split_code_comment line) ++ py "  # " ++ t) = false.
Proof.
  intros Hc Hopen.
  destruct (split_with_comment line Hc) as (ws & a & p & Hline & Hws & _ & _).
  set (code := fst (_split_code_comment line)) in *.
  change (py "  # " ++ t) with ([space; space] ++ hash :: space :: t).
  unfold opens_docstring, strip, strip_by, lstrip_by in *.
  rewrite Hline in Hopen. rewrite dropwhile_app in Hopen |- *.
  destruct (dropwhile isspace code) as [|c u] eqn:Hu.
  - rewrite (dropwhile_all isspace [space; space]) by reflexivity.
    rewrite dropwhile_stop by reflexivity.
    destruct (rstrip_by_keeps_head isspace hash (space :: t) eq_refl) as [r ->].
    reflexivity.
  - rewrite app_assoc in Hopen |- *.
    destruct (rstrip_by_through isspace ((c :: u) ++ ws) hash a eq_refl)
      as [r1 H1].
    destruct (rstrip_by_through isspace ((c :: u) ++ [space; space]) hash
                (space :: t) eq_refl) as [r2 H2].
    rewrite H1 in Hopen. rewrite H2.
    assert (Hcut : forall q,
               (space =? q)%N = false ->
               startswith (((c :: u) ++ ws) ++ hash :: r1) [q; q; q] = false ->
               startswith (((c :: u) ++ [space; space]) ++ hash :: r2)
                          [q; q; q] = false).
    { intros q Hq Hq1.
      destruct (startswith (((c :: u) ++ [space; space]) ++ hash :: r2)
                           [q; q; q]) eqn:E; [|reflexivity].
      rewrite <- app_assoc in E.
      change ([space; space] ++ hash :: r2)
        with (space :: (space :: hash :: r2)) in E.
      apply (startswith_triple_cut (c :: u) _ space q Hq) in E.
      rewrite <- app_assoc in Hq1.
      now rewrite (startswith_app (c :: u) _ _ E) in Hq1. }
    apply orb_false_iff in Hopen as [Hd Hs].
    apply orb_false_iff. split.
    + exact (Hcut dquote eq_refl Hd).
    + exact (Hcut squote eq_refl Hs).
Qed.

Section SecondPass.

Variable isalpha : char -> bool.
Variable B : Type.
Variable chat_completions_create : Client -> Request -> B -> Completion * B.

Local Abbreviation scan :=
  (scan_line isalpha chat_completions_create).

(** X14: a comment line the pass has rebuilt, seen by a later pass.  The
    splitter gives back the code part of the original line and the text
    written after [# ], trimmed; and as soon as that text holds a Chinese
    character the rebuilt line, scanned outside a block, goes to the
    output as it is, with the world untouched. *)
Theorem rebuilt_comment_line (self : CommentTranslator) (i : nat)
        (line t : str) (st : ScanState) (w : World B) :
  snd (_split_code_comment line) <> [] ->
  let rebuilt := fst (_split_code_comment line) ++ py "  # " ++ t in
  _split_code_comment rebuilt = (fst (_split_code_comment line), strip t)
  /\ (in_docstring st = false ->
      opens_docstring line = false ->
      _contains_chinese t = true ->
      scan self i rebuilt st w = (Ok (append_line st rebuilt), w)).
Proof.
  intros Hc rebuilt.
  pose proof (split_rebuilt_line_aux line t Hc) as Hsplit.
  fold rebuilt in Hsplit. split; [exact Hsplit|].
  intros Hin Hopen Hzh.
  pose proof (rebuilt_opens_no_docstring line t Hc Hopen) as Hopen'.
  fold rebuilt in Hopen'.
  rewrite scan_line_kept.
  - unfold keep_line. now rewrite Hin, Hopen'.
  - rewrite Hin. discriminate.
  - unfold span_kept, span_text. rewrite Hin, Hopen'. cbn [negb].
    destruct (mem hash rebuilt); [|reflexivity].
    rewrite Hsplit. cbn [snd]. apply negb_true_iff, guard_false. right.
    now apply contains_chinese_strip.
Qed.

End SecondPass.

(** ** The content of a block *)

Lemma doc_content_loop_tail (delimiter : str) (n : nat) (middle : list str)
      (last : str) :
  forall (j : nat) (acc : list str),
    0 < j ->
    n = j + List.length middle + 1 ->
    doc_content_loop delimiter n j (middle ++ [last]) acc
    = acc ++ map strip middle
      ++ (if truthy (rstrip_chars delimiter (strip last))
          then [rstrip_chars delimiter (strip last)] else []).
Proof.
  induction middle as [|m middle IH]; intros j acc Hj Hn;
    cbn [app doc_content_loop List.length map] in *.
  - replace (j =? 0) with false by (symmetry; apply Nat.eqb_neq; lia).
    replace (j =? n - 1) with true by (symmetry; apply Nat.eqb_eq; lia).
    destruct (truthy _); [reflexivity | now rewrite app_nil_r].
  - replace (j =? 0) with false by (symmetry; apply Nat.eqb_neq; lia).
    replace (j =? n - 1) with false by (symmetry; apply Nat.eqb_neq; lia).
    rewrite IH by lia. now rewrite <- app_assoc.
Qed.

(** X15: the text of a block of two lines or more that goes to
    translation: the first line without blanks around it and without any
    leading character of the delimiter, the last line without blanks and
    without any trailing character of the delimiter, each left out when
    nothing remains of it, and between them every middle line, trimmed
    but kept even when blank; all joined by newlines. *)
Theorem block_doc_content_parts (delimiter first last : str)
        (middle : list str) :
  block_doc_content delimiter (first :: middle ++ [last])
  = join newline
      ((if truthy (lstrip_chars delimiter (strip first))
        then [lstrip_chars delimiter (strip first)] else [])
       ++ map strip middle
       ++ (if truthy (rstrip_chars delimiter (strip last))
           then [rstrip_chars delimiter (strip last)] else [])).
Proof.
  unfold block_doc_content. cbn [doc_content_loop List.length Nat.eqb].
  rewrite (doc_content_loop_tail delimiter _ middle last 1)
    by (rewrite ?length_app; cbn; lia).
  now destruct (truthy (lstrip_chars delimiter (strip first))).
Qed.

(** ** These properties at concrete inputs *)

Module MoreExamples.

Import Sample.

Lemma translate_file_frame_witness :
  py "other.py" <> path
  /\ fs (snd (translate_file latin_isalpha (fixed_backend chinese_reply) me
                path false (world_with tt (py "x = 1  # hello"))))
        (py "other.py")
     = fs (world_with tt (py "x = 1  # hello")) (py "other.py").
Proof.
  assert (H : py "other.py" <> path) by (vm_compute; discriminate).
  split; [exact H|].
  exact (translate_file_frame latin_isalpha unit (fixed_backend chinese_reply)
           me path (py "other.py") false
           (world_with tt (py "x = 1  # hello")) H).
Defined.

Lemma full_line_comment_indent_witness :
  _split_code_comment (py "    # hello") = ([], py "hello")
  /\ exists t st' w',
      translate_text latin_isalpha (fixed_backend chinese_reply) me
        (strip (py " hello")) (py "comment") (world_with tt [])
      = (Ok t, w')
      /\ scan_line latin_isalpha (fixed_backend chinese_reply) me 0
           (py "    # hello") initial_state (world_with tt [])
         = (Ok st', w')
      /\ translated_lines st' = [] ++ [py "  # " ++ t].
Proof.
  exact (full_line_comment_indent latin_isalpha unit
           (fixed_backend chinese_reply) me 0 (py "    ") (py " hello")
           initial_state (world_with tt []) eq_refl eq_refl eq_refl).
Defined.

Lemma plain_file_line_by_line_witness :
  let original := lines_text [py "x = 1"; py "y = 2  # hello"] in
  Forall (fun line => opens_docstring line = false) (split newline original)
  /\ exists outs w',
      translate_content latin_isalpha (fixed_backend chinese_reply) me
        original (world_with tt original)
      = (Ok (join newline outs), w')
      /\ List.length outs = 2.
Proof.
  intros original.
  assert (H : Forall (fun line => opens_docstring line = false)
                     (split newline original))
    by (vm_compute; repeat constructor).
  split; [exact H|].
  destruct (plain_file_line_by_line latin_isalpha unit
              (fixed_backend chinese_reply) me original
              (world_with tt original) H) as (outs & w' & Hrun & Hlen & _).
  exists outs, w'. split; [exact Hrun | exact Hlen].
Defined.

Lemma rebuilt_comment_line_witness :
  let rebuilt := py "x = 1  # " ++ chinese_reply in
  _split_code_comment rebuilt = (py "x = 1", chinese_reply)
  /\ scan_line latin_isalpha (fixed_backend chinese_reply) me 0 rebuilt
       initial_state (world_with tt [])
     = (Ok (append_line initial_state rebuilt), world_with tt []).
Proof.
  assert (Hc : snd (_split_code_comment (py "x = 1 # hello")) <> [])
    by (vm_compute; discriminate).
  destruct (rebuilt_comment_line latin_isalpha unit
              (fixed_backend chinese_reply) me 0 (py "x = 1 # hello")
              chinese_reply initial_state (world_with tt []) Hc)
    as [Hsplit Hstable].
  split; [exact Hsplit|]. exact (Hstable eq_refl eq_refl eq_refl).
Defined.

Lemma main_tally_witness :
  exists success_count fail_count head,
    console (snd (main latin_isalpha (fixed_backend chinese_reply)
                    Project.disk Project.parse_args Project.OpenAI
                    [py "proj"] Project.start))
    = head ++ map FromMain [MainRule true; MainDone;
                            MainSuccess success_count;
                            MainFail fail_count; MainRule false]
    /\ success_count + fail_count = 2.
Proof.
  assert (Hfiles : find_python_files Project.disk (py "proj")
                     (Some (exclude (Project.args false))) <> [])
    by (vm_compute; discriminate).
  exact (main_tally latin_isalpha unit (fixed_backend chinese_reply)
           Project.disk Project.parse_args Project.OpenAI
           [py "proj"] Project.start _ Project.tree _
           eq_refl eq_refl Hfiles eq_refl).
Defined.

Lemma main_dry_run_witness :
  fs (world (snd (main latin_isalpha (fixed_backend chinese_reply)
                    Project.disk Project.parse_args Project.OpenAI
                    [py "proj"; py "--dry-run"] Project.start)))
  = fs Project.start
  /\ exists success_count head,
      console (snd (main latin_isalpha (fixed_backend chinese_reply)
                      Project.disk Project.parse_args Project.OpenAI
                      [py "proj"; py "--dry-run"] Project.start))
      = head ++ map FromMain [MainRule true; MainDone;
                              MainSuccess success_count;
                              MainFail 1; MainRule false].
Proof.
  assert (Hfiles : find_python_files Project.disk (py "proj")
                     (Some (exclude (Project.args false))) <> [])
    by (vm_compute; discriminate).
  destruct (main_dry_run latin_isalpha unit (fixed_backend chinese_reply)
              Project.disk Project.parse_args Project.OpenAI
              [py "proj"; py "--dry-run"] Project.start _ eq_refl eq_refl)
    as [Hfs Htally].
  split; [exact Hfs|]. exact (Htally Project.tree _ eq_refl Hfiles eq_refl).
Defined.

Lemma main_frame_witness :
  (forall args,
      Project.parse_args [py "proj"] = ParsedArgs args ->
      ~ In (py "proj/venv/x.py")
           (find_python_files Project.disk (directory args)
              (Some (exclude args))))
  /\ fs (world (snd (main latin_isalpha (fixed_backend chinese_reply)
                       Project.disk Project.parse_args Project.OpenAI
                       [py "proj"] Project.start)))
        (py "proj/venv/x.py")
     = fs Project.start (py "proj/venv/x.py").
Proof.
  assert (H : forall args,
             Project.parse_args [py "proj"] = ParsedArgs args ->
             ~ In (py "proj/venv/x.py")
                  (find_python_files Project.disk (directory args)
                     (Some (exclude args)))).
  { intros args [= <-]. vm_compute. intros [H | [H | []]]; discriminate. }
  split; [exact H|].
  exact (main_frame latin_isalpha unit (fixed_backend chinese_reply)
           Project.disk Project.parse_args Project.OpenAI
           [py "proj"] Project.start (py "proj/venv/x.py") H).
Defined.

End MoreExamples.
